(** * cpp_usbhost_libusb: a shallow embedding of [usb_host.cpp] and
    [threading.h], and the properties of its device state machine, its
    device registry and its single-thread job queue.

    Layout
    - [LibUsb]    : the interface of the bus driver (libusb) as the code
                    uses it: calls, replies, and a log of the calls made.
    - [Device]    : [UsbDevice] with [open], [close], [resetPort],
                    [clearHalt] and [isValid].
    - [threading] : [Worker] as a transition system: caller actions and
                    the steps of the worker thread, interleaved.
    - [Host]      : [UsbHost]'s registry, [registerLibUsbDevice],
                    [unregisterLibUsbDevice] and [getDevice].
    The theorems follow the definitions. *)

From stdpp Require Import base option list gmap sorting.
From Stdlib Require Import ZArith NArith Lia.

Local Open Scope Z_scope.
#[local] Set Warnings "-clear-no-such-hyp".

(* ===================================================================== *)
(** ** The bus driver                                                     *)
(* ===================================================================== *)

Module LibUsb.

(** Pointers ([libusb_device*], [libusb_device_handle*]) are addresses;
    [nullptr] is address 0. *)
Definition ptr : Type := N.
Definition nullptr : ptr := 0%N.
Definition is_null (p : ptr) : bool := N.eqb p nullptr.

(** Return codes of libusb ([enum libusb_error]). *)
Definition LIBUSB_SUCCESS : Z := 0.
Definition LIBUSB_ERROR_IO : Z := -1.
Definition LIBUSB_ERROR_NO_DEVICE : Z := -4.
Definition LIBUSB_ERROR_NOT_FOUND : Z := -5.
Definition LIBUSB_ERROR_BUSY : Z := -6.

(** The calls [UsbDevice] makes into libusb. *)
Inductive BusCall : Type :=
| libusb_open (dev : ptr)
| libusb_close (handle : ptr)
| libusb_release_interface (handle : ptr) (interface_number : Z)
| libusb_set_configuration (handle : ptr) (configuration : Z)
| libusb_claim_interface (handle : ptr) (interface_number : Z)
| libusb_reset_device (handle : ptr)
| libusb_clear_halt (handle : ptr) (endpoint : Z).  (* [unsigned char] *)

(** What a call gives back: its return code and, for [libusb_open],
    the value it leaves in the out-parameter [&mLibUsbDeviceHandle]. *)
Record BusReply : Type := mkReply { rc : Z; out_handle : ptr }.

(** The driver is outside the program: it answers a call knowing the
    calls made before it. *)
Definition BusDriver : Type := list BusCall → BusCall → BusReply.

(** Code that calls the bus threads the log of the calls made so far. *)
Definition Bus (A : Type) : Type := list BusCall → A * list BusCall.

Definition ret {A} (a : A) : Bus A := λ log, (a, log).
Definition bind {A B} (m : Bus A) (k : A → Bus B) : Bus B :=
  λ log, let '(a, log') := m log in k a log'.
Definition call (driver : BusDriver) (c : BusCall) : Bus BusReply :=
  λ log, (driver log c, log ++ [c]).

(** stdpp's monad notations: [x ← m; k] and [m;; k]. *)
Global Instance Bus_ret : MRet Bus := @ret.
Global Instance Bus_bind : MBind Bus := λ A B k m, bind m k.

End LibUsb.

(* ===================================================================== *)
(** ** UsbDeviceId                                                        *)
(* ===================================================================== *)

(** [struct UsbDeviceId]: two [uint16_t] fields. *)
Record UsbDeviceId : Type := mkId { vendor : N; product : N }.

Global Instance UsbDeviceId_eq_dec : EqDecision UsbDeviceId.
Proof. solve_decision. Defined.

Definition uint16 (n : N) : N := (n mod 2 ^ 16)%N.
Definition uint32 (n : N) : N := (n mod 2 ^ 32)%N.

(** The constructor [UsbDeviceId(uint16_t v = 0, uint16_t p = 0)]. *)
Definition UsbDeviceId_new (v p : N) : UsbDeviceId :=
  {| vendor := uint16 v; product := uint16 p |}.

(** [uint32_t(vendor) << 16 | uint32_t(product)], the value that
    [operator<] compares. *)
Definition id_key (i : UsbDeviceId) : N :=
  N.lor (uint32 (N.shiftl (uint32 (vendor i)) 16)) (uint32 (product i)).

(** [UsbDeviceId::operator<]. *)
Definition id_lt (a b : UsbDeviceId) : bool := (id_key a <? id_key b)%N.

(** Both fields fit [uint16_t]. *)
Definition in_range (i : UsbDeviceId) : Prop :=
  (vendor i < 2 ^ 16)%N ∧ (product i < 2 ^ 16)%N.

(* ===================================================================== *)
(** ** UsbDevice                                                          *)
(* ===================================================================== *)

Module Device.
Import LibUsb.

Record UsbDevice : Type := mkDevice {
  mId : UsbDeviceId;
  mLibUsbDeviceContext : ptr;
  mLibUsbDeviceHandle : ptr;
  mLastLibUsbError : Z;
  mInterfaceNumber : Z;
  mIsValid : bool
}.

Definition set_handle (h : ptr) (d : UsbDevice) : UsbDevice :=
  mkDevice (mId d) (mLibUsbDeviceContext d) h (mLastLibUsbError d)
           (mInterfaceNumber d) (mIsValid d).
Definition set_error (e : Z) (d : UsbDevice) : UsbDevice :=
  mkDevice (mId d) (mLibUsbDeviceContext d) (mLibUsbDeviceHandle d) e
           (mInterfaceNumber d) (mIsValid d).
Definition set_interface (i : Z) (d : UsbDevice) : UsbDevice :=
  mkDevice (mId d) (mLibUsbDeviceContext d) (mLibUsbDeviceHandle d)
           (mLastLibUsbError d) i (mIsValid d).
Definition set_valid (b : bool) (d : UsbDevice) : UsbDevice :=
  mkDevice (mId d) (mLibUsbDeviceContext d) (mLibUsbDeviceHandle d)
           (mLastLibUsbError d) (mInterfaceNumber d) b.

(** [UsbDevice::UsbDevice(libusb_device* device, const UsbDeviceId& id)]. *)
Definition UsbDevice_new (device : ptr) (id : UsbDeviceId) : UsbDevice :=
  {| mId := id;
     mLibUsbDeviceContext := device;
     mLibUsbDeviceHandle := nullptr;
     mLastLibUsbError := 0;
     mInterfaceNumber := -1;
     mIsValid := true |}.

Definition lastLibUsbError (d : UsbDevice) : Z := mLastLibUsbError d.
Definition native_handle (d : UsbDevice) : ptr := mLibUsbDeviceHandle d.
Definition isValid (d : UsbDevice) : bool := mIsValid d.

(** The conversion of an [int32_t] argument to the [unsigned char]
    parameter of [libusb_clear_halt]. *)
Definition to_uchar (n : Z) : Z := n mod 2 ^ 8.

Section WithDriver.
Variable driver : BusDriver.

(** [bool UsbDevice::open(int32_t config_number, int32_t interface_number)]. *)
Definition open (config_number interface_number : Z) (d : UsbDevice)
  : Bus (bool * UsbDevice) :=
  d1 ← (if negb (is_null (mLibUsbDeviceContext d))
            && is_null (mLibUsbDeviceHandle d)
         then
           r ← call driver (libusb_open (mLibUsbDeviceContext d));
           let d' := set_error (rc r) (set_handle (out_handle r) d) in
           mret (if negb (mLastLibUsbError d' =? LIBUSB_SUCCESS)
                then set_handle nullptr d' else d')
         else mret d);
  d2 ← (if (config_number >=? 0) && (interface_number >=? 0)
         then
           if negb (is_null (mLibUsbDeviceHandle d1))
           then
             (if mInterfaceNumber d1 >=? 0
              then call driver (libusb_release_interface
                                  (mLibUsbDeviceHandle d1)
                                  (mInterfaceNumber d1));; mret tt
              else mret tt);;
             r ← call driver (libusb_set_configuration
                                 (mLibUsbDeviceHandle d1) config_number);
             if rc r =? LIBUSB_SUCCESS
             then
               r' ← call driver (libusb_claim_interface
                                    (mLibUsbDeviceHandle d1)
                                    interface_number);
               mret (set_error (rc r')
                      (if rc r' =? LIBUSB_SUCCESS
                       then set_interface interface_number d1 else d1))
             else mret (set_error (rc r) d1)
           else mret d1
         else mret d1);
  mret (false, d2).

(** [void UsbDevice::close()]. *)
Definition close (d : UsbDevice) : Bus UsbDevice :=
  if negb (is_null (mLibUsbDeviceHandle d))
  then
    d1 ← (if mInterfaceNumber d >=? 0
           then call driver (libusb_release_interface
                               (mLibUsbDeviceHandle d)
                               (mInterfaceNumber d));;
                mret (set_interface (-1) d)
           else mret d);
    call driver (libusb_close (mLibUsbDeviceHandle d1));;
    mret d1
  else mret d.

(** [bool UsbDevice::resetPort()]. *)
Definition resetPort (d : UsbDevice) : Bus (bool * UsbDevice) :=
  if negb (is_null (mLibUsbDeviceHandle d))
  then
    r ← call driver (libusb_reset_device (mLibUsbDeviceHandle d));
    if negb (rc r =? LIBUSB_SUCCESS)
    then
      d1 ← (if mInterfaceNumber d >=? 0
             then call driver (libusb_release_interface
                                 (mLibUsbDeviceHandle d)
                                 (mInterfaceNumber d));;
                  mret (set_interface (-1) d)
             else mret d);
      call driver (libusb_close (mLibUsbDeviceHandle d1));;
      mret (false, set_valid false d1)
    else mret (true, d)
  else mret (true, d).

(** [bool UsbDevice::clearHalt(int32_t endpoint_number)]. *)
Definition clearHalt (endpoint_number : Z) (d : UsbDevice)
  : Bus (bool * UsbDevice) :=
  if negb (is_null (mLibUsbDeviceHandle d))
  then
    r ← call driver (libusb_clear_halt (mLibUsbDeviceHandle d)
                                        (to_uchar endpoint_number));
    if negb (rc r =? LIBUSB_SUCCESS)
    then mret (false, set_error (rc r) d)
    else mret (true, d)
  else mret (true, d).

End WithDriver.

(** A driver on which every call succeeds; [libusb_open] yields the
    handle [h]. *)
Definition healthy_driver (h : ptr) : BusDriver :=
  λ _ _, mkReply LIBUSB_SUCCESS h.

(** A driver that answers [code] to the calls selected by [fails] and
    succeeds on the others. *)
Definition failing_driver (h : ptr) (fails : BusCall → bool) (code : Z)
  : BusDriver :=
  λ _ c, if fails c then mkReply code nullptr else mkReply LIBUSB_SUCCESS h.

(** *** Concrete devices and drivers *)

(** The device of identity (0x1234, 0x5678) at address 5, as the
    registry constructs it. *)
Definition fresh_device : UsbDevice :=
  UsbDevice_new 5%N (UsbDeviceId_new 0x1234 0x5678).

(** The same device once opened on handle 7 with interface 0 claimed. *)
Definition claimed_device : UsbDevice :=
  set_interface 0 (set_handle 7%N fresh_device).

Definition is_reset (c : BusCall) : bool :=
  match c with libusb_reset_device _ => true | _ => false end.
Definition is_set_configuration (c : BusCall) : bool :=
  match c with libusb_set_configuration _ _ => true | _ => false end.

(** [libusb_reset_device] fails with LIBUSB_ERROR_NO_DEVICE. *)
Definition reset_fails : BusDriver :=
  failing_driver 7%N is_reset LIBUSB_ERROR_NO_DEVICE.
(** [libusb_set_configuration] fails with LIBUSB_ERROR_BUSY. *)
Definition configuration_fails : BusDriver :=
  failing_driver 7%N is_set_configuration LIBUSB_ERROR_BUSY.

(** The device left by [close()] on [claimed_device], and the log of
    that close. *)
Definition closed_device : UsbDevice := set_interface (-1) claimed_device.
Definition close_log : list BusCall :=
  [libusb_release_interface 7%N 0; libusb_close 7%N].

(** The device left by the failing reset of [claimed_device], and the
    log of that reset. *)
Definition invalidated_device : UsbDevice :=
  set_valid false (set_interface (-1) claimed_device).
Definition reset_log : list BusCall :=
  [libusb_reset_device 7%N; libusb_release_interface 7%N 0;
   libusb_close 7%N].

(** *** Sequences of calls on one device *)

(** A call of one of the four operations that take [mHandleMutex]. *)
Inductive DeviceOp : Type :=
| OpOpen (config_number interface_number : Z)
| OpClose
| OpResetPort
| OpClearHalt (endpoint_number : Z).

(** The device after one call, its return value dropped. *)
Definition apply_op (driver : BusDriver) (op : DeviceOp) (d : UsbDevice)
  : Bus UsbDevice :=
  match op with
  | OpOpen config_number interface_number =>
      r ← open driver config_number interface_number d; mret r.2
  | OpClose => close driver d
  | OpResetPort => r ← resetPort driver d; mret r.2
  | OpClearHalt endpoint_number =>
      r ← clearHalt driver endpoint_number d; mret r.2
  end.

(** The device after a sequence of calls; [mHandleMutex] serialises
    them, so they take place one after the other. *)
Fixpoint apply_ops (driver : BusDriver) (ops : list DeviceOp) (d : UsbDevice)
  : Bus UsbDevice :=
  match ops with
  | [] => mret d
  | op :: ops' => d' ← apply_op driver op d; apply_ops driver ops' d'
  end.

(** [mInterfaceNumber] is -1, or names an interface and the handle is
    not null. *)
Definition claim_consistent (d : UsbDevice) : Prop :=
  mInterfaceNumber d = -1
  ∨ (0 ≤ mInterfaceNumber d ∧ mLibUsbDeviceHandle d ≠ nullptr).

Definition is_libusb_open (c : BusCall) : bool :=
  match c with libusb_open _ => true | _ => false end.

End Device.

(* ===================================================================== *)
(** ** threading::Worker                                                  *)
(* ===================================================================== *)

(** The worker is shared between the threads that call [push], [start]
    and [stop] and the thread it spawns.  Its model is a transition
    system: one state, the caller actions and the steps of the spawned
    thread as atomic transitions, and schedules that interleave them.

    Granularity.  A transition is a stretch of code that runs under
    [jobs_mutex], or that touches shared state once.  [thread_mutex] is
    held across transitions by a [start(true)] that waits for the thread
    and by a [stop()] from its request to its return, so it is part of
    the state, and so is the statement that [stop()] has reached: after
    the join it resets [thread], stores 0 to [counter], pops the queue
    and clears [stop_request], none of it under [jobs_mutex], so that a
    [push] can come between any two of these.

    [cond_var.wait(lock, pred)] is a transition enabled when [pred]
    holds: the model says when the thread may pass the wait, not that
    it is woken.  [push] changes [counter] under [jobs_mutex] and then
    notifies, so a waiting thread sees it.  [stop()] stores to
    [stop_request] and notifies without [jobs_mutex]: its notification
    can fall between the thread's test of [pred] and its sleep, and be
    lost.  Nothing below concludes that a thread is woken by [stop()]. *)

Module threading.

Section Worker.
(** The target of a non-empty [std::function<void()>], and whether
    calling it leaves by an exception. *)
Context {Job : Type} (throws : Job → bool).

(** [std::function<void()>]; [None] is the empty function object. *)
Definition function : Type := option Job.

(** Where the spawned thread stands in the lambda of [start]. *)
Inductive ThreadPc : Type :=
| PcEntry (wait_to_start : bool)  (* at [if (wait_to_start)]            *)
| PcLoop                          (* at [while (!stop_request.load())]  *)
| PcWait                          (* at [cond_var.wait(lock, ...)]      *)
| PcRun                           (* at [while (!jobs_cpy.empty())]     *)
| PcReturned                      (* the lambda has returned            *)
| PcTerminated.                   (* an exception left the lambda: the
                                     body has no try/catch, so the
                                     runtime calls std::terminate       *)

(** The spawned [std::thread]: its position and its local [jobs_cpy]. *)
Record Thread : Type := mkThread {
  pc : ThreadPc;
  jobs_cpy : list function
}.

(** Which call owns [thread_mutex] while it waits. *)
Inductive Holder : Type := HoldStart | HoldStop.

(** Where the [stop()] that owns [thread_mutex] stands. *)
Inductive StopPc : Type :=
| SpJoin                          (* at [thread->join()]                *)
| SpCounter                       (* at [counter.store(0)]              *)
| SpEmpty                         (* at [while (!jobs.empty())]         *)
| SpPop                           (* at [jobs.pop()]                    *)
| SpFlag.                         (* at [stop_request.store(false)]     *)

Record Worker : Type := mkWorker {
  thread : option Thread;          (* [nullptr] is [None] *)
  thread_mutex : option Holder;
  counter : N;                     (* [std::atomic_uint32_t] *)
  stop_request : bool;
  jobs : list function;
  start_sync : bool;               (* [Sync::cond] of [start_sync] *)
  stop_pc : StopPc                 (* [SpJoin] while no [stop()] owns
                                      [thread_mutex]                 *)
}.

(** [Worker::Worker()]. *)
Definition Worker_new : Worker :=
  {| thread := None; thread_mutex := None; counter := 0%N;
     stop_request := false; jobs := []; start_sync := false;
     stop_pc := SpJoin |}.

(** [void push(const std::function<void()>& job)]. *)
Definition push (job : function) (w : Worker) : Worker :=
  mkWorker (thread w) (thread_mutex w)
           (uint32 (counter w + 1)%N)
           (stop_request w)
           (jobs w ++ [job])
           (start_sync w) (stop_pc w).

(** [bool start(bool wait_to_start)], up to the point where the call
    returns or blocks in [start_sync.wait()], with the value the
    call returns. *)
Definition start (wait_to_start : bool) (w : Worker) : bool * Worker :=
  match thread_mutex w with
  | Some _ => (false, w)                       (* try_to_lock failed *)
  | None =>
      match thread w with
      | None =>
          (false,
           mkWorker (Some (mkThread (PcEntry wait_to_start) []))
                    (if wait_to_start then Some HoldStart else None)
                    (counter w) (stop_request w) (jobs w) (start_sync w)
                    (stop_pc w))
      | Some _ => (false, w)
      end
  end.

(** The end of [start(true)]: [start_sync.wait()] returns once the
    thread has woken it, consumes the signal, and the call returns. *)
Definition start_resume (w : Worker) : option Worker :=
  match thread_mutex w with
  | Some HoldStart =>
      if start_sync w
      then Some (mkWorker (thread w) None (counter w) (stop_request w)
                          (jobs w) false (stop_pc w))
      else None
  | _ => None
  end.

(** [void stop()] up to [thread->join()]: blocked while another call
    owns [thread_mutex].  With no thread it returns at once. *)
Definition stop_begin (w : Worker) : option Worker :=
  match thread_mutex w with
  | Some _ => None
  | None =>
      match thread w with
      | Some _ =>
          Some (mkWorker (thread w) (Some HoldStop) (counter w) true
                         (jobs w) (start_sync w) SpJoin)
      | None => Some w
      end
  end.

(** [thread->join()] returns, once the lambda has, and
    [thread.reset()] follows; [thread] is read and written under
    [thread_mutex] only, which this call owns. *)
Definition stop_join (w : Worker) : option Worker :=
  match thread_mutex w, thread w with
  | Some HoldStop, Some t =>
      match pc t with
      | PcReturned =>
          Some (mkWorker None (Some HoldStop) (counter w) (stop_request w)
                         (jobs w) (start_sync w) SpCounter)
      | _ => None
      end
  | _, _ => None
  end.

(** The next statement of [void stop()] after [thread.reset()]:
    [counter.store(0)], the test and the body of
    [while (!jobs.empty()) { jobs.pop(); }], and
    [stop_request.store(false)], after which the call returns and
    releases [thread_mutex]. *)
Definition stop_tail (w : Worker) : option Worker :=
  match thread_mutex w, thread w with
  | Some HoldStop, None =>
      match stop_pc w with
      | SpJoin => None
      | SpCounter =>
          Some (mkWorker None (Some HoldStop) 0%N (stop_request w)
                         (jobs w) (start_sync w) SpEmpty)
      | SpEmpty =>
          Some (mkWorker None (Some HoldStop) (counter w) (stop_request w)
                         (jobs w) (start_sync w)
                         (match jobs w with [] => SpFlag | _ => SpPop end))
      | SpPop =>
          match jobs w with
          | [] => None
          | _ :: rest =>
              Some (mkWorker None (Some HoldStop) (counter w)
                             (stop_request w) rest (start_sync w) SpEmpty)
          end
      | SpFlag =>
          Some (mkWorker None None (counter w) false (jobs w)
                         (start_sync w) SpJoin)
      end
  | _, _ => None
  end.

Definition with_thread (t : Thread) (w : Worker) : Worker :=
  mkWorker (Some t) (thread_mutex w) (counter w) (stop_request w)
           (jobs w) (start_sync w) (stop_pc w).

(** One step of the spawned thread, with the job it invokes, if any.
    [None]: the thread does not exist, is blocked, or has ended. *)
Definition thread_step (w : Worker) : option (Worker * list Job) :=
  match thread w with
  | None => None
  | Some t =>
      match pc t with
      | PcEntry wait_to_start =>
          Some (mkWorker (Some (mkThread PcLoop (jobs_cpy t)))
                         (thread_mutex w) (counter w) (stop_request w)
                         (jobs w)
                         (if wait_to_start then true else start_sync w)
                         (stop_pc w),
                [])
      | PcLoop =>
          if stop_request w
          then Some (with_thread (mkThread PcReturned (jobs_cpy t)) w, [])
          else Some (with_thread (mkThread PcWait (jobs_cpy t)) w, [])
      | PcWait =>
          if (0 <? counter w)%N || stop_request w
          then Some (mkWorker (Some (mkThread PcRun (jobs w)))
                              (thread_mutex w) 0%N (stop_request w)
                              (jobs_cpy t) (start_sync w) (stop_pc w),
                     [])
          else None
      | PcRun =>
          match jobs_cpy t with
          | [] => Some (with_thread (mkThread PcLoop []) w, [])
          | None :: rest =>
              Some (with_thread (mkThread PcRun rest) w, [])
          | Some job :: rest =>
              if throws job
              then Some (with_thread (mkThread PcTerminated (jobs_cpy t)) w,
                         [job])
              else Some (with_thread (mkThread PcRun rest) w, [job])
          end
      | PcReturned => None
      | PcTerminated => None
      end
  end.

(** After std::terminate the process is gone. *)
Definition terminated (w : Worker) : bool :=
  match thread w with
  | Some t => match pc t with PcTerminated => true | _ => false end
  | None => false
  end.

Inductive Action : Type :=
| APush (job : function)
| AStart (wait_to_start : bool)
| AStartResume
| AStopRequest
| AStopJoin
| AStopTail
| AThread.

(** One transition: the next state and the jobs invoked, or [None]
    when the action cannot take place in [w]. *)
Definition act (a : Action) (w : Worker) : option (Worker * list Job) :=
  if terminated w then None else
  match a with
  | APush job => Some (push job w, [])
  | AStart wait_to_start => Some ((start wait_to_start w).2, [])
  | AStartResume => (λ w', (w', [])) <$> start_resume w
  | AStopRequest => (λ w', (w', [])) <$> stop_begin w
  | AStopJoin => (λ w', (w', [])) <$> stop_join w
  | AStopTail => (λ w', (w', [])) <$> stop_tail w
  | AThread => thread_step w
  end.

(** A schedule, run from [w]: the final state and the jobs invoked,
    in the order of their invocation. *)
Fixpoint run (s : list Action) (w : Worker) : option (Worker * list Job) :=
  match s with
  | [] => Some (w, [])
  | a :: s' =>
      match act a w with
      | None => None
      | Some (w1, e1) =>
          match run s' w1 with
          | None => None
          | Some (w2, e2) => Some (w2, e1 ++ e2)
          end
      end
  end.

(** The function objects a schedule pushes, in order. *)
Fixpoint pushes (s : list Action) : list function :=
  match s with
  | [] => []
  | APush job :: s' => job :: pushes s'
  | _ :: s' => pushes s'
  end.

(** The non-empty ones among a list of function objects:
    [if (job) { job(); }] invokes only those. *)
Definition callable (l : list function) : list Job := omap id l.

(** The jobs of [l] up to and including the first that throws. *)
Fixpoint until_throw (l : list Job) : list Job :=
  match l with
  | [] => []
  | j :: l' => if throws j then [j] else j :: until_throw l'
  end.

(** A schedule in which nobody calls [stop]. *)
Definition no_stop (s : list Action) : Prop :=
  Forall (λ a, a ≠ AStopRequest ∧ a ≠ AStopJoin) s.

(** What the thread has taken and what waits in the shared queue, in
    the order in which the thread gets to it. *)
Definition batch (w : Worker) : list function :=
  match thread w with Some t => jobs_cpy t | None => [] end.
Definition pending (w : Worker) : list function := batch w ++ jobs w.

(** *** Quantities and invariants of the transition system *)

(** What one action appends to the shared queue. *)
Definition push_of (a : Action) : list function :=
  match a with APush job => [job] | _ => [] end.

(** [jobs_cpy] is empty wherever the thread is outside its inner
    loop: it starts empty and the inner loop runs until it is. *)
Definition batch_ok (w : Worker) : Prop :=
  match thread w with
  | Some t =>
      match pc t with
      | PcRun | PcTerminated => True
      | _ => jobs_cpy t = []
      end
  | None => True
  end.

(** [stop()] is past its join and still in its loop: what the queue
    holds, and what is pushed before the loop finds it empty, is
    popped there. *)
Definition discarding (w : Worker) : bool :=
  match thread_mutex w, thread w, stop_pc w with
  | Some HoldStop, None, (SpCounter | SpEmpty | SpPop) => true
  | _, _, _ => false
  end.


(** The jobs that can still be invoked, as the state has them. *)
Definition remaining (w : Worker) : list Job :=
  if terminated w || discarding w then [] else callable (pending w).

(** What will have been invoked once the thread has nothing left to
    do, if [X] is pushed from here on and nobody stops the worker. *)
Definition rem (w : Worker) (X : list Job) : list Job :=
  if terminated w then []
  else until_throw (callable (pending w) ++ X).

(** The states of a worker on which [stop] has not been called. *)
Definition running (w : Worker) : Prop :=
  batch_ok w
  ∧ stop_request w = false
  ∧ counter w = uint32 (N.of_nat (length (jobs w)))
  ∧ match thread w with
    | Some t => pc t ≠ PcReturned
    | None => True
    end
  ∧ thread_mutex w ≠ Some HoldStop.

Definition not_stop (a : Action) : Prop :=
  a ≠ AStopRequest ∧ a ≠ AStopJoin.

(** A bound on the steps the thread can take on its own, while nobody
    pushes or stops: through its batch, back to the wait, and once
    more through what the queue holds if [counter] lets it in. *)
Definition settle_bound (w : Worker) : nat :=
  let refill :=
    if (0 <? counter w)%N then (length (jobs w) + 3)%nat else 0%nat in
  match thread w with
  | None => 0%nat
  | Some t =>
      match pc t with
      | PcEntry _ => (3 + refill)%nat
      | PcLoop => (2 + refill)%nat
      | PcWait => (1 + refill)%nat
      | PcRun => (length (jobs_cpy t) + 3 + refill)%nat
      | PcReturned | PcTerminated => 0%nat
      end
  end.

(** [stop()] has been requested and the thread is past the wait it
    was woken from: it will not take from the shared queue again. *)
Definition winding_down (w : Worker) : Prop :=
  stop_request w = true
  ∧ thread_mutex w = Some HoldStop
  ∧ match thread w with
    | Some t => pc t ≠ PcWait
    | None => False
    end.

(** What of its batch the thread has still to invoke. *)
Definition remaining_batch (w : Worker) : list Job :=
  if terminated w then [] else callable (batch w).

(** A schedule in which no [stop()] gets past its [join]. *)
Definition no_join (s : list Action) : Prop := Forall (λ a, a ≠ AStopJoin) s.


(** The steps [stop()] takes from [counter.store(0)] to its return
    when nothing is pushed meanwhile and the queue holds [n] jobs. *)
Definition tail_steps (n : nat) : list Action :=
  replicate (2 * n + 3) AStopTail.

(** [push] called for each of [fs], in order. *)
Definition push_all (fs : list function) (w : Worker) : Worker :=
  foldl (λ w job, push job w) w fs.

(** The thread stands at its entry, spawned by [start(true)]. *)
Definition at_waited_entry (w : Worker) : bool :=
  match thread w with
  | Some t => match pc t with PcEntry true => true | _ => false end
  | None => false
  end.

(** The thread exists and is past its entry. *)
Definition past_entry (w : Worker) : bool :=
  match thread w with
  | Some t => match pc t with PcEntry _ => false | _ => true end
  | None => false
  end.

(** How [thread_mutex], [stop_request] and [start_sync] go together. *)
Definition lock_ok (w : Worker) : Prop :=
  match thread_mutex w with
  | None =>
      stop_request w = false ∧ start_sync w = false
      ∧ at_waited_entry w = false
  | Some HoldStop =>
      stop_request w = true ∧ start_sync w = false
      ∧ at_waited_entry w = false
  | Some HoldStart =>
      stop_request w = false
      ∧ (at_waited_entry w = true ∧ start_sync w = false
         ∨ past_entry w = true ∧ start_sync w = true)
  end.

End Worker.

Arguments function : clear implicits.
Arguments Thread : clear implicits.
Arguments Worker : clear implicits.
Arguments Action : clear implicits.

(** [stop()] waits in [join] while the thread still holds job 7 in
    its batch; job 8 is in the shared queue. *)
Definition stopping_with_batch : Worker nat :=
  {| thread := Some (mkThread PcRun [Some 7%nat]);
     thread_mutex := Some HoldStop; counter := 1%N; stop_request := true;
     jobs := [Some 8%nat]; start_sync := false;
     stop_pc := SpJoin |}.

(** [start(true)] has spawned the thread on a new worker and waits;
    the thread has sent the signal. *)
Definition started_and_signalled : Worker nat :=
  {| thread := Some (mkThread PcLoop []); thread_mutex := Some HoldStart;
     counter := 0%N; stop_request := false; jobs := [];
     start_sync := true;
     stop_pc := SpJoin |}.

(** The thread waits on an empty queue. *)
Definition waiting_idle : Worker nat :=
  {| thread := Some (mkThread PcWait []); thread_mutex := None;
     counter := 0%N; stop_request := false; jobs := [];
     start_sync := false;
     stop_pc := SpJoin |}.

(** *** Sync and SyncPair *)

(** [class Sync]: its [cond]; the mutex and the condition variable
    carry no state of their own. *)
Record Sync : Type := mkSync { cond : bool }.

(** [Sync::Sync()]. *)
Definition Sync_new : Sync := mkSync false.

(** [void Sync::wake()]. *)
Definition wake (s : Sync) : Sync := mkSync true.

(** [void Sync::wait()]: [None] while the caller is blocked. *)
Definition wait (s : Sync) : option Sync :=
  if cond s then Some (mkSync false) else None.

(** [class SyncPair], with how far a caller of [waitForFirst] and a
    caller of [waitForSecond] have come: 0 not begun, 1 past its
    [wake], 2 returned from its [wait]. *)
Record SyncPair : Type := mkSyncPair {
  first : Sync;
  second : Sync;
  in_waitForFirst : nat;
  in_waitForSecond : nat
}.

(** [SyncPair::SyncPair()], nobody having called yet. *)
Definition SyncPair_new : SyncPair := mkSyncPair Sync_new Sync_new 0 0.

(** The next step of [void waitForFirst()]: [second.wake()], then
    [first.wait()]. *)
Definition waitForFirst_step (p : SyncPair) : option SyncPair :=
  match in_waitForFirst p with
  | 0%nat =>
      Some (mkSyncPair (first p) (wake (second p)) 1 (in_waitForSecond p))
  | 1%nat =>
      match wait (first p) with
      | Some f => Some (mkSyncPair f (second p) 2 (in_waitForSecond p))
      | None => None
      end
  | _ => None
  end.

(** The next step of [void waitForSecond()]: [first.wake()], then
    [second.wait()]. *)
Definition waitForSecond_step (p : SyncPair) : option SyncPair :=
  match in_waitForSecond p with
  | 0%nat =>
      Some (mkSyncPair (wake (first p)) (second p) (in_waitForFirst p) 1)
  | 1%nat =>
      match wait (second p) with
      | Some s => Some (mkSyncPair (first p) s (in_waitForFirst p) 2)
      | None => None
      end
  | _ => None
  end.

(** A schedule of the two callers: [true] lets the caller of
    [waitForFirst] step, [false] the caller of [waitForSecond]. *)
Fixpoint pair_run (s : list bool) (p : SyncPair) : option SyncPair :=
  match s with
  | [] => Some p
  | who :: s' =>
      match (if who then waitForFirst_step p else waitForSecond_step p) with
      | Some p' => pair_run s' p'
      | None => None
      end
  end.

(** Each signal is set exactly while it has been sent and not yet
    consumed. *)
Definition pair_ok (p : SyncPair) : Prop :=
  (in_waitForFirst p ≤ 2)%nat ∧ (in_waitForSecond p ≤ 2)%nat
  ∧ cond (first p)
    = (1 <=? in_waitForSecond p)%nat && (in_waitForFirst p <? 2)%nat
  ∧ cond (second p)
    = (1 <=? in_waitForFirst p)%nat && (in_waitForSecond p <? 2)%nat
  ∧ (in_waitForFirst p = 2%nat → (1 ≤ in_waitForSecond p)%nat)
  ∧ (in_waitForSecond p = 2%nat → (1 ≤ in_waitForFirst p)%nat).

(** *** Concrete workers and schedules, with jobs named by numbers *)

Definition never_throws : nat → bool := λ _, false.
(** Job 1 throws; the others return. *)
Definition job1_throws : nat → bool := λ n, Nat.eqb n 1.

(** The thread has been started and waits; job 7 is then pushed. *)
Definition waiting_with_job7 : Worker nat :=
  {| thread := Some (mkThread PcWait []); thread_mutex := None;
     counter := 1%N; stop_request := false; jobs := [Some 7%nat];
     start_sync := false;
     stop_pc := SpJoin |}.

(** [stop()] has been called and waits in [join]; the lambda has
    returned; job 8, pushed meanwhile, is in the queue. *)
Definition joinable_with_job8 : Worker nat :=
  {| thread := Some (mkThread PcReturned []); thread_mutex := Some HoldStop;
     counter := 1%N; stop_request := true; jobs := [Some 8%nat];
     start_sync := false;
     stop_pc := SpJoin |}.

(** [joinable_with_job8] after the join: [thread] has been reset,
    [stop()] is at [counter.store(0)], job 8 is still in the queue. *)
Definition joined_with_job8 : Worker nat :=
  {| thread := None; thread_mutex := Some HoldStop;
     counter := 1%N; stop_request := true; jobs := [Some 8%nat];
     start_sync := false; stop_pc := SpCounter |}.


(** Job 1 has thrown: the process has been terminated with job 2
    still in [jobs_cpy]. *)
Definition terminated_by_job1 : Worker nat :=
  {| thread := Some (mkThread PcTerminated [Some 1%nat; Some 2%nat]);
     thread_mutex := None; counter := 0%N; stop_request := false;
     jobs := []; start_sync := false;
     stop_pc := SpJoin |}.

(** Start, wait for the thread, push jobs 0, an empty function object,
    3 and 2, and let the thread take them. *)
Definition fifo_schedule : list (Action nat) :=
  [AStart true; AThread; AStartResume;
   APush (Some 0%nat); APush None; APush (Some 3%nat); APush (Some 2%nat);
   AThread; AThread].

(** The worker after [fifo_schedule]. *)
Definition draining_fifo : Worker nat :=
  {| thread :=
       Some (mkThread PcRun [Some 0%nat; None; Some 3%nat; Some 2%nat]);
     thread_mutex := None; counter := 0%N; stop_request := false;
     jobs := []; start_sync := false;
     stop_pc := SpJoin |}.

End threading.

(* ===================================================================== *)
(** ** UsbHost                                                            *)
(* ===================================================================== *)

Module Host.
Import LibUsb Device threading.

(** A [libusb_device] as the host sees it: its address and what
    [libusb_get_device_descriptor] answers for it. *)
Record libusb_device : Type := mkLibusbDevice {
  dev_ptr : ptr;
  descriptor_rc : Z;
  idVendor : N;
  idProduct : N
}.

(** [static std::optional<UsbDeviceId> createUsbDeviceId(libusb_device* device)]. *)
Definition createUsbDeviceId (device : libusb_device) : option UsbDeviceId :=
  if descriptor_rc device =? LIBUSB_SUCCESS
  then Some (UsbDeviceId_new (idVendor device) (idProduct device))
  else None.

Section UsbHost.
(** The target of [std::function<void(const UsbDevice_sptr_t&)>]. *)
Context {Callback : Type}.

(** The lambda [[plugged_in_cb, device_obj]() { plugged_in_cb(device_obj); }]
    is its two captures. *)
Definition PluggedInJob : Type := Callback * UsbDevice.

(** [std::map<UsbDeviceId, UsbDevice_sptr_t>] orders and identifies its
    keys by [operator<], which compares [id_key]: the entries are
    indexed by that value and hold the key and the device. *)
Record UsbHost : Type := mkHost {
  mLibUsbContext : ptr;
  mLibUsbHotPlugCbHandle : Z;
  mLastLibUsbError : Z;
  mDevices : gmap N (UsbDeviceId * UsbDevice);
  mWorker : Worker PluggedInJob;
  mPluggedInCallback : option Callback
}.

Definition set_devices (m : gmap N (UsbDeviceId * UsbDevice)) (h : UsbHost)
  : UsbHost :=
  mkHost (mLibUsbContext h) (mLibUsbHotPlugCbHandle h) (mLastLibUsbError h)
         m (mWorker h) (mPluggedInCallback h).
Definition set_worker (w : Worker PluggedInJob) (h : UsbHost) : UsbHost :=
  mkHost (mLibUsbContext h) (mLibUsbHotPlugCbHandle h) (mLastLibUsbError h)
         (mDevices h) w (mPluggedInCallback h).

(** [UsbDevice_sptr_t UsbHost::getDevice(uint16_t vendor_id, uint16_t product_id)];
    [None] is [nullptr]. *)
Definition getDevice (vendor_id product_id : N) (h : UsbHost)
  : option UsbDevice :=
  let id := UsbDeviceId_new vendor_id product_id in
  match mDevices h !! id_key id with
  | Some it => Some it.2
  | None => None
  end.

(** [int32_t UsbHost::registerLibUsbDevice(libusb_device* device)]. *)
Definition registerLibUsbDevice (device : libusb_device) (h : UsbHost)
  : Z * UsbHost :=
  match createUsbDeviceId device with
  | Some id =>
      match mDevices h !! id_key id with
      | None =>
          let device_obj := UsbDevice_new (dev_ptr device) id in
          let h1 := set_devices (<[id_key id := (id, device_obj)]> (mDevices h)) h in
          match mPluggedInCallback h1 with
          | Some plugged_in_cb =>
              (0, set_worker (push (Some (plugged_in_cb, device_obj))
                                   (mWorker h1)) h1)
          | None => (0, h1)
          end
      | Some _ => (0, h)
      end
  | None => (0, h)
  end.

(** [int32_t UsbHost::unregisterLibUsbDevice(libusb_device* device)]. *)
Definition unregisterLibUsbDevice (device : libusb_device) (h : UsbHost)
  : Z * UsbHost :=
  match createUsbDeviceId device with
  | Some id => (0, set_devices (delete (id_key id) (mDevices h)) h)
  | None => (0, h)
  end.

(** The host after the arrival events [devices], in that order. *)
Definition arrivals (devices : list libusb_device) (h : UsbHost) : UsbHost :=
  foldl (λ h device, (registerLibUsbDevice device h).2) h devices.

(** The first arrival in [devices] whose identity is [id]. *)
Definition first_arrival (id : UsbDeviceId) (devices : list libusb_device)
  : option libusb_device :=
  head (filter (λ device, createUsbDeviceId device = Some id) devices).

(** *** Hotplug events, discovery and teardown *)

(** [enum libusb_hotplug_event], as libusb declares it. *)
Definition LIBUSB_HOTPLUG_EVENT_DEVICE_ARRIVED : Z := 1.
Definition LIBUSB_HOTPLUG_EVENT_DEVICE_LEFT : Z := 2.

(** [static int libusbHotPlugCallback(libusb_context* ctx, libusb_device* device,
    libusb_hotplug_event event, void* user_data)]: [user_data] is the
    host, [None] when it is null.  The result is the value returned
    and the host afterwards. *)
Definition libusbHotPlugCallback (device : libusb_device) (event : Z)
    (user_data : option UsbHost) : Z * option UsbHost :=
  match user_data with
  | Some host =>
      (0,
       Some (if event =? LIBUSB_HOTPLUG_EVENT_DEVICE_ARRIVED
             then (registerLibUsbDevice device host).2
             else if event =? LIBUSB_HOTPLUG_EVENT_DEVICE_LEFT
             then (unregisterLibUsbDevice device host).2
             else host))
  | None => (1, None)
  end.

(** The host after libusb has delivered [events] to the callback
    registered with [this] as [user_data]. *)
Definition deliver (events : list (libusb_device * Z)) (h : UsbHost) : UsbHost :=
  foldl (λ h ev, default h (libusbHotPlugCallback ev.1 ev.2 (Some h)).2)
        h events.

(** Whether an event reports the arrival or the departure of a device
    whose descriptor reads as identity [id]. *)
Definition concerns (id : UsbDeviceId) (ev : libusb_device * Z) : Prop :=
  createUsbDeviceId ev.1 = Some id.
Global Instance concerns_dec id ev : Decision (concerns id ev) :=
  decide (createUsbDeviceId ev.1 = Some id).

(** What [libusb_get_device_list] gives: the number it returns (an
    error code when negative) and the list it stores through its
    out-parameter. *)
Record DeviceList : Type := mkDeviceList {
  device_number : Z;
  device_list : list libusb_device
}.

(** The elements [device_list[0]] .. [device_list[device_number - 1]]
    that the loops of the two discovery functions visit. *)
Definition listed (l : DeviceList) : list libusb_device :=
  take (Z.to_nat (device_number l)) (device_list l).

(** [std::vector<UsbDeviceId> UsbHost::discoverDevicesIds()]. *)
Definition discoverDevicesIds (l : DeviceList) (h : UsbHost)
  : list UsbDeviceId :=
  if negb (is_null (mLibUsbContext h))
  then
    if device_number l >? 0
    then omap createUsbDeviceId (listed l)
    else []
  else [].

(** [void UsbHost::discoverDevices()]. *)
Definition discoverDevices (l : DeviceList) (h : UsbHost) : UsbHost :=
  if negb (is_null (mLibUsbContext h))
  then
    if device_number l >? 0
    then arrivals (listed l) h
    else h
  else h.

(** *** The host and the thread of its worker *)

(** The constructor starts [mWorker] before it registers the hotplug
    callback, so the thread takes its steps between the arrivals that
    libusb reports.  An arrival is one step: [registerLibUsbDevice]
    runs under [mHotPlugMutex], it touches the worker by its one
    [push], and the thread does not touch the registry. *)
Inductive HostStep : Type :=
| HArrival (device : libusb_device)
| HThread.

(** [throws job] says whether the callback of [job] leaves by an
    exception, which ends the process: nothing steps after that. *)
Definition host_step (throws : PluggedInJob → bool) (a : HostStep)
    (h : UsbHost) : option (UsbHost * list PluggedInJob) :=
  if terminated (mWorker h) then None else
  match a with
  | HArrival device => Some ((registerLibUsbDevice device h).2, [])
  | HThread =>
      match thread_step throws (mWorker h) with
      | Some (w, e) => Some (set_worker w h, e)
      | None => None
      end
  end.

(** The host after the steps [s], and the callback jobs invoked, in
    the order of their invocation. *)
Fixpoint host_run (throws : PluggedInJob → bool) (s : list HostStep)
    (h : UsbHost) : option (UsbHost * list PluggedInJob) :=
  match s with
  | [] => Some (h, [])
  | a :: s' =>
      match host_step throws a h with
      | None => None
      | Some (h1, e1) =>
          match host_run throws s' h1 with
          | None => None
          | Some (h2, e2) => Some (h2, e1 ++ e2)
          end
      end
  end.

(** The devices whose arrival the steps report, in order. *)
Definition arrived (s : list HostStep) : list libusb_device :=
  omap (λ a, match a with HArrival device => Some device | HThread => None end)
       s.

(** The callback jobs invoked so far together with those that wait, in
    the batch of the thread and in the queue. *)
Definition callbacks (e : list PluggedInJob) (h : UsbHost)
  : list PluggedInJob :=
  e ++ callable (pending (mWorker h)).

End UsbHost.

Arguments UsbHost : clear implicits.

(** *** A concrete sequence of arrivals *)

(** Identity (0x1234, 0x5678) arrives at address 10 and again at
    address 11, identity (1, 2) at address 12, and the descriptor of
    the device at address 13 cannot be read. *)
Definition sample_arrivals : list libusb_device :=
  [ mkLibusbDevice 10%N LIBUSB_SUCCESS 0x1234 0x5678;
    mkLibusbDevice 11%N LIBUSB_SUCCESS 0x1234 0x5678;
    mkLibusbDevice 12%N LIBUSB_SUCCESS 1 2;
    mkLibusbDevice 13%N LIBUSB_ERROR_IO 0 0 ].

(** A host with a callback, an empty registry and a new worker. *)
Definition sample_host : UsbHost unit :=
  {| mLibUsbContext := 1%N; mLibUsbHotPlugCbHandle := 1;
     mLastLibUsbError := 0; mDevices := ∅; mWorker := Worker_new;
     mPluggedInCallback := Some tt |}.

(** [sample_host] once its constructor has returned: [start(true)] has
    spawned the thread and has been woken by it. *)
Definition started_host : UsbHost unit :=
  set_worker {| thread := Some (mkThread PcLoop []); thread_mutex := None;
                counter := 0%N; stop_request := false; jobs := [];
                start_sync := false; stop_pc := SpJoin |}
             sample_host.

(** The first arrival of [sample_arrivals]; the thread reaches its wait
    and takes the callback job; the other arrivals; the thread invokes
    the job. *)
Definition sample_steps : list HostStep :=
  [ HArrival (mkLibusbDevice 10%N LIBUSB_SUCCESS 0x1234 0x5678);
    HThread; HThread;
    HArrival (mkLibusbDevice 11%N LIBUSB_SUCCESS 0x1234 0x5678);
    HArrival (mkLibusbDevice 12%N LIBUSB_SUCCESS 1 2);
    HArrival (mkLibusbDevice 13%N LIBUSB_ERROR_IO 0 0);
    HThread ].

(** No callback throws. *)
Definition no_callback_throws : @PluggedInJob unit → bool := λ _, false.

(** The entries of the registry in the order [std::map] iterates them:
    by rising key. *)
Definition key_le (a b : N * (UsbDeviceId * UsbDevice)) : Prop :=
  (a.1 ≤ b.1)%N.
Global Instance key_le_dec a b : Decision (key_le a b) :=
  decide (a.1 ≤ b.1)%N.
Definition entries_in_key_order (devices : gmap N (UsbDeviceId * UsbDevice))
  : list (N * (UsbDeviceId * UsbDevice)) :=
  merge_sort key_le (map_to_list devices).

(** The loop of [closeDevices] over [entries]: each device is closed
    where it is, in the map. *)
Fixpoint close_each (driver : BusDriver)
    (entries : list (N * (UsbDeviceId * UsbDevice)))
    (devices : gmap N (UsbDeviceId * UsbDevice))
  : Bus (gmap N (UsbDeviceId * UsbDevice)) :=
  match entries with
  | [] => mret devices
  | (key, (id, device)) :: rest =>
      device' ← close driver device;
      close_each driver rest (<[key := (id, device')]> devices)
  end.

(** [void UsbHost::closeDevices()], on the map it walks. *)
Definition closeDevices (driver : BusDriver)
    (devices : gmap N (UsbDeviceId * UsbDevice))
  : Bus (gmap N (UsbDeviceId * UsbDevice)) :=
  close_each driver (entries_in_key_order devices) devices.

End Host.

(* ===================================================================== *)
(** * Properties of UsbDevice                                             *)
(* ===================================================================== *)

Module DeviceTheory.
Import LibUsb Device.

(** Unfolding the operations down to the log. *)
Ltac run_bus :=
  unfold open, close, resetPort, clearHalt, mbind, mret, Bus_bind, Bus_ret,
    bind, ret, call, isValid, set_valid, set_error, set_interface,
    set_handle in *;
  cbn in *.

(** Case analysis on every test the code makes, one test at a time. *)
Ltac split_ifs :=
  repeat match goal with
         | |- context [if ?b then _ else _] => destruct b eqn:?; cbn in *
         end.

(** ** Facts that hold of every call *)

(** [open] ends in [return false] on every path. *)
Lemma open_result_false driver c i d log :
  (open driver c i d log).1.1 = false.
Proof.
  destruct d; run_bus; split_ifs; congruence.
Qed.

(** [close] never writes [mLibUsbDeviceHandle]. *)
Lemma close_handle_unchanged driver d log :
  mLibUsbDeviceHandle (close driver d log).1 = mLibUsbDeviceHandle d.
Proof.
  destruct d; run_bus; split_ifs; congruence.
Qed.

(** [resetPort] never writes [mLastLibUsbError]. *)
Lemma resetPort_error_unchanged driver d log :
  mLastLibUsbError (resetPort driver d log).1.2 = mLastLibUsbError d.
Proof.
  destruct d; run_bus; split_ifs; congruence.
Qed.

(** No operation but [resetPort] writes [mIsValid], and none reads it:
    an operation on a device is the operation on the device with the
    flag set to any other value, the flag aside. *)
Lemma open_ignores_valid driver c i d b log :
  open driver c i (set_valid b d) log =
  (let '(r, d', log') := open driver c i d log in (r, set_valid b d', log')).
Proof.
  destruct d; run_bus; split_ifs; congruence.
Qed.

Lemma close_ignores_valid driver d b log :
  close driver (set_valid b d) log =
  (let '(d', log') := close driver d log in (set_valid b d', log')).
Proof.
  destruct d; run_bus; split_ifs; congruence.
Qed.

Lemma clearHalt_ignores_valid driver e d b log :
  clearHalt driver e (set_valid b d) log =
  (let '(r, d', log') := clearHalt driver e d log in (r, set_valid b d', log')).
Proof.
  destruct d; run_bus; split_ifs; congruence.
Qed.

Lemma resetPort_failure_invalidates driver d log :
  (resetPort driver d log).1.1 = false →
  isValid (resetPort driver d log).1.2 = false.
Proof.
  destruct d; run_bus; split_ifs; intros; congruence.
Qed.

Lemma set_valid_idem d :
  isValid d = false → set_valid false (set_valid true d) = d.
Proof. destruct d; cbn; intros ->; reflexivity. Qed.

(** ** The claims *)

(** C1.  [open(1, 0)] on the freshly registered device, on a bus where
    every call succeeds: the handle is opened, configuration 1 is set
    and interface 0 is claimed, and the call returns [false]; indeed
    [open] returns [false] whatever happens on the bus. *)
Theorem open_success_returns_false :
  open (healthy_driver 7%N) 1 0 fresh_device [] =
    (false, claimed_device,
     [libusb_open 5%N; libusb_set_configuration 7%N 1;
      libusb_claim_interface 7%N 0])
  ∧ ∀ driver c i d log, (open driver c i d log).1.1 = false.
Proof. split; [reflexivity | apply open_result_false]. Qed.

(** C2.  [close()] on the open device releases the interface and calls
    [libusb_close], but leaves [mLibUsbDeviceHandle] at the closed
    handle 7: a second [close()] calls [libusb_close] on it again, and
    a following [open(1, 0)] makes no [libusb_open] call and configures
    the closed handle. *)
Theorem close_leaves_handle_set :
  let closed := set_interface (-1) claimed_device in
  let log1 := [libusb_release_interface 7%N 0; libusb_close 7%N] in
  close (healthy_driver 7%N) claimed_device [] = (closed, log1)
  ∧ native_handle closed = 7%N
  ∧ close (healthy_driver 7%N) closed log1 =
      (closed, log1 ++ [libusb_close 7%N])
  ∧ open (healthy_driver 7%N) 1 0 closed log1 =
      (false, claimed_device,
       log1 ++ [libusb_set_configuration 7%N 1;
                libusb_claim_interface 7%N 0])
  ∧ ∀ driver d log,
      mLibUsbDeviceHandle (close driver d log).1 = mLibUsbDeviceHandle d.
Proof.
  cbv zeta. repeat split; try reflexivity. apply close_handle_unchanged.
Qed.

(** C4, as stated, fails: after the failing reset of [claimed_device]
    the flag is clear, and [clearHalt(1)] does not fail fast: it
    returns [true] and calls [libusb_clear_halt]. *)
Lemma invalid_device_clearHalt_calls_bus :
  resetPort reset_fails claimed_device [] =
    (false, invalidated_device, reset_log)
  ∧ isValid invalidated_device = false
  ∧ ¬ ((clearHalt reset_fails 1 invalidated_device reset_log).1.1 = false
       ∧ (clearHalt reset_fails 1 invalidated_device reset_log).2 = reset_log).
Proof.
  split; [reflexivity | split; [reflexivity |]].
  intros [Hr _]. vm_compute in Hr. discriminate Hr.
Qed.

(** C4, amended.  After a failing [resetPort()], [isValid()] is false
    and stays false under [open], [close] and [clearHalt]; these calls
    do not consult the flag: each returns, calls the bus and updates
    the other fields as it does on the same device with the flag set. *)
Theorem invalid_device_flag_not_consulted driver d log :
  (resetPort driver d log).1.1 = false →
  let d' := (resetPort driver d log).1.2 in
  isValid d' = false
  ∧ ∀ c i e log2,
      isValid (open driver c i d' log2).1.2 = false
      ∧ isValid (close driver d' log2).1 = false
      ∧ isValid (clearHalt driver e d' log2).1.2 = false
      ∧ open driver c i d' log2 =
          (let '(r, x, l) := open driver c i (set_valid true d') log2 in
           (r, set_valid false x, l))
      ∧ close driver d' log2 =
          (let '(x, l) := close driver (set_valid true d') log2 in
           (set_valid false x, l))
      ∧ clearHalt driver e d' log2 =
          (let '(r, x, l) := clearHalt driver e (set_valid true d') log2 in
           (r, set_valid false x, l)).
Proof.
  intros Hfail d'.
  assert (Hinv : isValid d' = false)
    by (apply resetPort_failure_invalidates, Hfail).
  split; [exact Hinv |]. intros c i e log2.
  pose proof (set_valid_idem d' Hinv) as Hd'.
  pose proof (open_ignores_valid driver c i (set_valid true d') false log2) as Ho.
  pose proof (close_ignores_valid driver (set_valid true d') false log2) as Hc.
  pose proof (clearHalt_ignores_valid driver e (set_valid true d') false log2) as Hh.
  rewrite Hd' in Ho, Hc, Hh.
  repeat split; try assumption.
  - rewrite Ho. destruct (open driver c i (set_valid true d') log2) as [[r x] l]. reflexivity.
  - rewrite Hc. destruct (close driver (set_valid true d') log2) as [x l]. reflexivity.
  - rewrite Hh. destruct (clearHalt driver e (set_valid true d') log2) as [[r x] l]. reflexivity.
Qed.

(** The failing reset of [claimed_device], then [clearHalt(1)]. *)
Lemma invalid_device_flag_not_consulted_witness :
  isValid (resetPort reset_fails claimed_device []).1.2 = false
  ∧ clearHalt reset_fails 1 (resetPort reset_fails claimed_device []).1.2
              reset_log =
      (let '(r, x, l) :=
         clearHalt reset_fails 1
           (set_valid true (resetPort reset_fails claimed_device []).1.2)
           reset_log in
       (r, set_valid false x, l)).
Proof.
  pose proof (invalid_device_flag_not_consulted reset_fails claimed_device []
                eq_refl) as [Hv Hops].
  split; [exact Hv |].
  exact (proj2 (proj2 (proj2 (proj2 (proj2 (Hops 1 0 1 reset_log)))))).
Defined.

(** C6.  [open(1, 1)] on the device that holds handle 7 and interface
    0, with [libusb_set_configuration] failing: interface 0 is released
    on the bus, the handle stays open, the last error is the failing
    step's code, and [mInterfaceNumber] still says 0. *)
Theorem open_failure_keeps_released_claim :
  open configuration_fails 1 1 claimed_device [] =
    (false, set_error LIBUSB_ERROR_BUSY claimed_device,
     [libusb_release_interface 7%N 0; libusb_set_configuration 7%N 1])
  ∧ mInterfaceNumber (set_error LIBUSB_ERROR_BUSY claimed_device) = 0
  ∧ native_handle (set_error LIBUSB_ERROR_BUSY claimed_device) = 7%N
  ∧ lastLibUsbError (set_error LIBUSB_ERROR_BUSY claimed_device)
    = LIBUSB_ERROR_BUSY.
Proof. repeat split; reflexivity. Qed.

(** C7.  A [resetPort()] whose [libusb_reset_device] fails with
    LIBUSB_ERROR_NO_DEVICE returns [false] and leaves the last-error
    code at its old value 0; [resetPort] never writes that code. *)
Theorem resetPort_failure_not_recorded :
  resetPort reset_fails claimed_device [] =
    (false, invalidated_device, reset_log)
  ∧ lastLibUsbError invalidated_device = 0
  ∧ ∀ driver d log,
      mLastLibUsbError (resetPort driver d log).1.2 = mLastLibUsbError d.
Proof.
  split; [reflexivity | split; [reflexivity |]].
  apply resetPort_error_unchanged.
Qed.

(** C10.  The device that [close()] leaves has no open handle, and on
    it [resetPort()] and [clearHalt(1)] do call the bus, with the
    handle that [libusb_close] has freed: [close()] does not null
    [mLibUsbDeviceHandle], which is all that the two functions test.
    The reset, failing, returns [false], clears the validity flag and
    closes the handle a second time.  On a null handle both functions
    return [true] and change neither the device nor the bus log. *)
Theorem closed_device_reset_clear_reach_bus :
  close reset_fails claimed_device [] = (closed_device, close_log)
  ∧ native_handle closed_device = 7%N
  ∧ resetPort reset_fails closed_device close_log =
      (false, set_valid false closed_device,
       close_log ++ [libusb_reset_device 7%N; libusb_close 7%N])
  ∧ clearHalt reset_fails 1 closed_device close_log =
      (true, closed_device, close_log ++ [libusb_clear_halt 7%N 1])
  ∧ ∀ driver endpoint d log,
      resetPort driver (set_handle nullptr d) log
      = (true, set_handle nullptr d, log)
      ∧ clearHalt driver endpoint (set_handle nullptr d) log
        = (true, set_handle nullptr d, log).
Proof. repeat split; reflexivity. Qed.

(** ** Further properties of the device operations *)

(** Every operation extends the log: the calls made so far stay. *)
Lemma apply_op_log driver op d log :
  ∃ calls,
    (apply_op driver op d log).2 = log ++ calls
    ∧ (mLibUsbDeviceHandle d ≠ nullptr →
       Forall (λ c, is_libusb_open c = false) calls).
Proof.
  destruct op, d as [i ctx h e n v]; unfold apply_op; run_bus; unfold is_null.
  all: destruct (N.eqb_spec h nullptr) as [->|Hh]; cbn.
  all: rewrite ?andb_false_r; cbn.
  all: split_ifs.
  all: eexists; (split; [rewrite <- ?app_assoc; try reflexivity;
                         symmetry; apply app_nil_r |]).
  all: intros Hnn; cbn in Hnn; try congruence; repeat constructor.
Qed.

Lemma apply_ops_cons driver op ops d log :
  apply_ops driver (op :: ops) d log
  = apply_ops driver ops (apply_op driver op d log).1
                         (apply_op driver op d log).2.
Proof.
  cbn [apply_ops]. unfold mbind, Bus_bind, bind.
  destruct (apply_op driver op d log). reflexivity.
Qed.

(** What one call leaves alone. *)
Lemma apply_op_frame driver op d log :
  mId (apply_op driver op d log).1 = mId d
  ∧ mLibUsbDeviceContext (apply_op driver op d log).1 = mLibUsbDeviceContext d
  ∧ (isValid d = false → isValid (apply_op driver op d log).1 = false)
  ∧ (mLibUsbDeviceHandle d ≠ nullptr →
     mLibUsbDeviceHandle (apply_op driver op d log).1 = mLibUsbDeviceHandle d).
Proof.
  destruct op, d as [i ctx h e n v]; unfold apply_op; run_bus; unfold is_null.
  all: destruct (N.eqb_spec h nullptr) as [->|Hh]; cbn.
  all: rewrite ?andb_false_r; cbn.
  all: split_ifs; repeat split; intros; congruence.
Qed.

Lemma apply_op_claim_consistent driver op d log :
  claim_consistent d → claim_consistent (apply_op driver op d log).1.
Proof.
  unfold claim_consistent.
  destruct op, d as [i ctx h e n v]; unfold apply_op; run_bus; unfold is_null.
  all: destruct (N.eqb_spec h nullptr) as [->|Hh]; cbn.
  all: rewrite ?andb_false_r; cbn.
  all: split_ifs; cbn; intros [Hn|[Hn Hnull]]; try (left; congruence).
  all: try (left; reflexivity); try (right; split; [lia | congruence]).
  all: try congruence.
  all: right; split; try lia; unfold nullptr in *;
    repeat match goal with
           | H : negb (_ =? _)%N = true |- _ =>
               apply negb_true_iff, N.eqb_neq in H
           end; try congruence.
Qed.

(** X1.  No sequence of [open], [close], [resetPort] and [clearHalt]
    changes the identity of a device or its [libusb_device]. *)
Theorem device_identity_immutable driver ops : ∀ d log,
  mId (apply_ops driver ops d log).1 = mId d
  ∧ mLibUsbDeviceContext (apply_ops driver ops d log).1
    = mLibUsbDeviceContext d.
Proof.
  induction ops as [|op ops IH]; intros d log; [done|].
  rewrite apply_ops_cons.
  destruct (IH (apply_op driver op d log).1 (apply_op driver op d log).2)
    as [-> ->].
  destruct (apply_op_frame driver op d log) as (Hid & Hctx & _).
  split; assumption.
Qed.

(** X2.  A device whose validity flag is clear stays invalid through
    every sequence of operations: nothing sets the flag again. *)
Theorem validity_never_restored driver ops : ∀ d log,
  isValid d = false → isValid (apply_ops driver ops d log).1 = false.
Proof.
  induction ops as [|op ops IH]; intros d log Hinv; [exact Hinv|].
  rewrite apply_ops_cons. apply IH.
  apply (apply_op_frame driver op d log), Hinv.
Qed.

(** X3.  Once the handle is not null, no sequence of operations
    changes it, and none of the bus calls they make is [libusb_open]. *)
Theorem open_handle_never_replaced driver ops : ∀ d log,
  mLibUsbDeviceHandle d ≠ nullptr →
  mLibUsbDeviceHandle (apply_ops driver ops d log).1 = mLibUsbDeviceHandle d
  ∧ ∃ calls,
      (apply_ops driver ops d log).2 = log ++ calls
      ∧ Forall (λ c, is_libusb_open c = false) calls.
Proof.
  induction ops as [|op ops IH]; intros d log Hh.
  - split; [reflexivity|]. exists []. split; [symmetry; apply app_nil_r|].
    constructor.
  - rewrite apply_ops_cons.
    destruct (apply_op_frame driver op d log) as (_ & _ & _ & Hkeep).
    destruct (apply_op_log driver op d log) as (calls1 & Hlog1 & Hno1).
    specialize (Hkeep Hh).
    destruct (IH (apply_op driver op d log).1 (apply_op driver op d log).2)
      as (Hh' & calls2 & Hlog2 & Hno2); [congruence|].
    split; [congruence|].
    exists (calls1 ++ calls2). split.
    + rewrite Hlog2, Hlog1, app_assoc. reflexivity.
    + apply Forall_app. split; [apply Hno1, Hh | exact Hno2].
Qed.

(** X4.  On a device made by the constructor, after any sequence of
    operations and whatever the bus answers, [mInterfaceNumber] is -1
    or names an interface while the handle is not null. *)
Theorem claimed_interface_needs_handle driver ops device id log :
  claim_consistent (apply_ops driver ops (UsbDevice_new device id) log).1.
Proof.
  assert (∀ d l, claim_consistent d →
                 claim_consistent (apply_ops driver ops d l).1) as Hgen.
  { induction ops as [|op ops IH]; intros d l Hd; [exact Hd|].
    rewrite apply_ops_cons. apply IH, apply_op_claim_consistent, Hd. }
  apply Hgen. left. reflexivity.
Qed.

(** X5.  [close()] changes nothing but the claimed-interface number,
    which it sets to none, whatever the bus answers: it records no
    error and keeps the handle. *)
Theorem close_only_clears_claim driver d log :
  claim_consistent d →
  (close driver d log).1 = set_interface (-1) d.
Proof.
  unfold claim_consistent.
  destruct d as [i ctx h e n v]; run_bus; unfold is_null.
  destruct (N.eqb_spec h nullptr) as [->|Hh]; cbn.
  all: split_ifs; cbn; intros [Hn|[Hn Hnull]]; try congruence; try lia.
Qed.

(** The device invalidated by a failing reset stays invalid through
    [open], [close] and a second reset. *)
Lemma validity_never_restored_witness :
  isValid (apply_ops reset_fails [OpOpen 1 0; OpClose; OpResetPort]
                     invalidated_device reset_log).1 = false.
Proof.
  apply (validity_never_restored reset_fails [OpOpen 1 0; OpClose; OpResetPort]
           invalidated_device reset_log).
  reflexivity.
Defined.

(** [claimed_device] keeps handle 7 through a close and a re-open. *)
Lemma open_handle_never_replaced_witness :
  mLibUsbDeviceHandle
    (apply_ops (healthy_driver 9%N) [OpClose; OpOpen 1 0] claimed_device []).1
  = 7%N
  ∧ ∃ calls,
      (apply_ops (healthy_driver 9%N) [OpClose; OpOpen 1 0]
                 claimed_device []).2 = [] ++ calls
      ∧ Forall (λ c, is_libusb_open c = false) calls.
Proof.
  apply (open_handle_never_replaced (healthy_driver 9%N) [OpClose; OpOpen 1 0]
           claimed_device []).
  discriminate.
Defined.

Lemma close_only_clears_claim_witness :
  (close configuration_fails claimed_device []).1
  = set_interface (-1) claimed_device.
Proof.
  apply (close_only_clears_claim configuration_fails claimed_device []).
  right. split; [reflexivity | discriminate].
Defined.

(** X6.  [open] on a device whose handle is null and whose
    [libusb_open] fails: the one
    bus call is that [libusb_open], its code becomes the last error,
    the handle stays null, and no configuration or claim is attempted
    even when both numbers are supplied. *)
Theorem open_failure_stops_at_libusb_open driver c i d log :
  mLibUsbDeviceContext d ≠ nullptr →
  mLibUsbDeviceHandle d = nullptr →
  rc (driver log (libusb_open (mLibUsbDeviceContext d))) ≠ LIBUSB_SUCCESS →
  open driver c i d log
  = (false,
     set_error (rc (driver log (libusb_open (mLibUsbDeviceContext d)))) d,
     log ++ [libusb_open (mLibUsbDeviceContext d)]).
Proof.
  intros Hctx Hh Hrc. destruct d as [id ctx h e n v]. cbn in *. subst h.
  run_bus. unfold is_null.
  destruct (N.eqb_spec ctx nullptr) as [?|_]; [contradiction|]. cbn.
  destruct (Z.eqb_spec (rc (driver log (libusb_open ctx))) LIBUSB_SUCCESS)
    as [?|_]; [contradiction|]. cbn.
  destruct ((c >=? 0) && (i >=? 0)); reflexivity.
Qed.

Lemma open_failure_stops_at_libusb_open_witness :
  open (failing_driver 7%N is_libusb_open LIBUSB_ERROR_NO_DEVICE) 1 0
       fresh_device []
  = (false, set_error LIBUSB_ERROR_NO_DEVICE fresh_device, [libusb_open 5%N]).
Proof.
  apply (open_failure_stops_at_libusb_open
           (failing_driver 7%N is_libusb_open LIBUSB_ERROR_NO_DEVICE) 1 0
           fresh_device []); [discriminate | reflexivity | discriminate].
Defined.

(** X7.  [open(c, i)] with both numbers supplied, on a device whose
    handle is null and which holds no claim, when [libusb_open],
    [libusb_set_configuration] and [libusb_claim_interface] all
    succeed: the device holds the handle
    the bus gave, interface [i] is recorded as claimed, the last error
    is success, and exactly those three calls were made, in that
    order. *)
Theorem open_configure_claim_succeeds driver c i d log h :
  mLibUsbDeviceContext d ≠ nullptr →
  mLibUsbDeviceHandle d = nullptr →
  mInterfaceNumber d = -1 →
  0 ≤ c → 0 ≤ i →
  h ≠ nullptr →
  let call1 := libusb_open (mLibUsbDeviceContext d) in
  let call2 := libusb_set_configuration h c in
  let call3 := libusb_claim_interface h i in
  driver log call1 = mkReply LIBUSB_SUCCESS h →
  rc (driver (log ++ [call1]) call2) = LIBUSB_SUCCESS →
  rc (driver ((log ++ [call1]) ++ [call2]) call3) = LIBUSB_SUCCESS →
  open driver c i d log
  = (false,
     set_error LIBUSB_SUCCESS (set_interface i (set_handle h d)),
     ((log ++ [call1]) ++ [call2]) ++ [call3]).
Proof.
  intros Hctx Hh Hn Hc Hi Hhn call1 call2 call3 H1 H2 H3.
  subst call1 call2 call3.
  destruct d as [id ctx h0 e n v]. cbn in *. subst h0 n.
  run_bus. unfold is_null.
  destruct (N.eqb_spec ctx nullptr) as [?|_]; [contradiction|]. cbn.
  rewrite H1. cbn.
  destruct (N.eqb_spec h nullptr) as [?|_]; [contradiction|]. cbn.
  rewrite (proj2 (Z.geb_le c 0)), (proj2 (Z.geb_le i 0)) by assumption. cbn.
  rewrite H2. cbn. rewrite H3. cbn. reflexivity.
Qed.

Lemma open_configure_claim_succeeds_witness :
  open (healthy_driver 7%N) 1 0 fresh_device []
  = (false,
     set_error LIBUSB_SUCCESS (set_interface 0 (set_handle 7%N fresh_device)),
     (([] ++ [libusb_open 5%N]) ++ [libusb_set_configuration 7%N 1])
       ++ [libusb_claim_interface 7%N 0]).
Proof.
  apply (open_configure_claim_succeeds (healthy_driver 7%N) 1 0 fresh_device
           [] 7%N); try reflexivity; try discriminate.
Defined.

(** X8.  [open] on a device whose handle is not null, with the
    configuration or the interface number left out (negative), makes
    no bus call and leaves the device, its last error included, as it
    is. *)
Theorem open_on_open_device_without_numbers driver c i d log :
  mLibUsbDeviceHandle d ≠ nullptr →
  c < 0 ∨ i < 0 →
  open driver c i d log = (false, d, log).
Proof.
  intros Hh Hneg. destruct d as [id ctx h e n v]. cbn in *.
  run_bus. unfold is_null.
  destruct (N.eqb_spec h nullptr) as [?|_]; [contradiction|].
  rewrite andb_false_r. cbn.
  assert ((c >=? 0) && (i >=? 0) = false) as ->; [|reflexivity].
  apply andb_false_iff. rewrite <- !not_true_iff_false, !Z.geb_le. lia.
Qed.

Lemma open_on_open_device_without_numbers_witness :
  open reset_fails (-1) (-1) claimed_device reset_log
  = (false, claimed_device, reset_log).
Proof.
  apply (open_on_open_device_without_numbers reset_fails (-1) (-1)
           claimed_device reset_log); [discriminate | left; reflexivity].
Defined.

End DeviceTheory.

(* ===================================================================== *)
(** * Properties of threading::Worker                                     *)
(* ===================================================================== *)

Module WorkerTheory.
Import threading.

Section Schedules.
Context {Job : Type} (throws : Job → bool).
Implicit Types (w : Worker Job) (s : list (Action Job)) (e : list Job).

Lemma pushes_cons a s : pushes (a :: s) = push_of a ++ pushes s.
Proof. destruct a; reflexivity. Qed.

Lemma callable_app (l1 l2 : list (function Job)) :
  callable (l1 ++ l2) = callable l1 ++ callable l2.
Proof. apply omap_app. Qed.

Lemma run_cons a s w :
  run throws (a :: s) w =
  match act throws a w with
  | None => None
  | Some (w1, e1) =>
      match run throws s w1 with
      | None => None
      | Some (w2, e2) => Some (w2, e1 ++ e2)
      end
  end.
Proof. reflexivity. Qed.

(** Case analysis on one transition. *)
Ltac step_cases :=
  unfold act, start, start_resume, stop_begin, stop_join, stop_tail,
    thread_step, push, with_thread, remaining, discarding, pending, batch,
    terminated, batch_ok, callable in *;
  cbn in *;
  repeat (case_match; simplify_eq/=).

Lemma act_batch_ok a w w1 e1 :
  batch_ok w → act throws a w = Some (w1, e1) → batch_ok w1.
Proof.
  intros Hok Hact. destruct w as [[[p jc]|] m c sr js ss sp].
  all: step_cases; auto.
Qed.

(** One transition invokes jobs from the front of what remains,
    appends what it pushes, and may discard. *)
Lemma act_sublist a w w1 e1 :
  batch_ok w → act throws a w = Some (w1, e1) →
  e1 ++ remaining w1 `sublist_of` remaining w ++ callable (push_of a).
Proof.
  intros Hok Hact. destruct w as [[[p jc]|] m c sr js ss sp].
  all: step_cases;
    rewrite ?omap_app, ?app_nil_r, <- ?app_assoc; cbn;
    try reflexivity; try apply sublist_nil_l.
  all: apply sublist_skip, sublist_nil_l.
Qed.

(** Over a schedule: what is invoked, in order, is taken from what
    remained at the start followed by what the schedule pushes. *)
Lemma run_sublist s : ∀ w w' e,
  batch_ok w → run throws s w = Some (w', e) →
  batch_ok w'
  ∧ e ++ remaining w' `sublist_of` remaining w ++ callable (pushes s).
Proof.
  induction s as [|a s IH]; intros w w' e Hok Hrun.
  - cbn in Hrun. simplify_eq. cbn. rewrite app_nil_r. done.
  - rewrite run_cons in Hrun.
    destruct (act throws a w) as [[w1 e1]|] eqn:Hact; [|discriminate].
    destruct (run throws s w1) as [[w2 e2]|] eqn:Hrest; [|discriminate].
    simplify_eq.
    pose proof (act_batch_ok _ _ _ _ Hok Hact) as Hok1.
    destruct (IH _ _ _ Hok1 Hrest) as [Hok' Hsub]. split; [exact Hok'|].
    rewrite pushes_cons, callable_app, <- app_assoc, (app_assoc (remaining w)).
    etrans; [apply sublist_app; [reflexivity | exact Hsub]|].
    rewrite app_assoc. apply sublist_app; [|reflexivity].
    eapply act_sublist; eauto.
Qed.

(** *** Schedules without [stop] *)

Lemma counter_push n :
  uint32 (uint32 (N.of_nat n) + 1) = uint32 (N.of_nat (n + 1)).
Proof.
  unfold uint32. rewrite Nat2N.inj_add. cbn [N.of_nat Pos.of_succ_nat].
  rewrite N.Div0.add_mod_idemp_l. reflexivity.
Qed.

Lemma act_exact a w w1 e1 X :
  running w → not_stop a → act throws a w = Some (w1, e1) →
  running w1
  ∧ e1 ++ rem throws w1 X = rem throws w (callable (push_of a) ++ X)
  ∧ (length (pending w1) ≤ length (pending w) + length (push_of a))%nat.
Proof.
  intros (Hok & Hsr & Hc & Hpc & Hm) [Hn1 Hn2] Hact.
  destruct w as [[[p jc]|] m c sr js ss sp].
  all: unfold running, rem in *; step_cases.
  all: rewrite ?length_app, ?omap_app, ?app_nil_r, <- ?app_assoc; cbn.
  all: rewrite ?counter_push.
  all: repeat split; try done; try lia.
Qed.

Lemma run_exact s : ∀ w w' e,
  running w → no_stop s → run throws s w = Some (w', e) →
  running w'
  ∧ e ++ rem throws w' [] = rem throws w (callable (pushes s))
  ∧ (length (pending w') ≤ length (pending w) + length (pushes s))%nat.
Proof.
  induction s as [|a s IH]; intros w w' e Hw Hs Hrun.
  - cbn in Hrun. simplify_eq. cbn. rewrite Nat.add_0_r. done.
  - rewrite run_cons in Hrun.
    destruct (act throws a w) as [[w1 e1]|] eqn:Hact; [|discriminate].
    destruct (run throws s w1) as [[w2 e2]|] eqn:Hrest; [|discriminate].
    simplify_eq.
    apply Forall_cons in Hs as [Ha Hs].
    destruct (act_exact a w w1 e1 (callable (pushes s)) Hw Ha Hact)
      as (Hw1 & Hstep & Hlen1).
    destruct (IH _ _ _ Hw1 Hs Hrest) as (Hw' & Hrem & Hlen).
    split; [exact Hw'|]. split.
    + rewrite <- app_assoc, Hrem, Hstep, pushes_cons, callable_app.
      reflexivity.
    + rewrite pushes_cons, length_app. lia.
Qed.

Lemma running_new : running (Worker_new (Job := Job)).
Proof. repeat split; discriminate. Qed.

(** A live thread that cannot step, on a worker nobody stopped, has
    terminated or waits with nothing to take. *)
Lemma blocked_nothing_left w :
  running w → thread w ≠ None → thread_step throws w = None →
  (N.of_nat (length (jobs w)) < 2 ^ 32)%N →
  rem throws w [] = [].
Proof.
  intros (Hok & Hsr & Hc & Hpc & Hm) Hth Hblocked Hlen.
  destruct w as [[[p jc]|] m c sr js ss sp]; [|done].
  unfold rem. step_cases; try done.
  all: unfold uint32 in *; rewrite N.mod_small in * by exact Hlen.
  all: destruct js; [reflexivity|]; cbn in *.
  all: match goal with H : (0 <? _)%N || _ = false |- _ =>
    apply orb_false_elim in H as [H _]; apply N.ltb_ge in H; lia
  end.
Qed.

(** *** The thread on its own *)

Lemma thread_step_decreases w w1 e1 :
  stop_request w = false →
  thread_step throws w = Some (w1, e1) →
  stop_request w1 = false
  ∧ is_Some (thread w1)
  ∧ (settle_bound w1 < settle_bound w)%nat.
Proof.
  intros Hsr Hstep. destruct w as [[[p jc]|] m c sr js ss sp].
  all: unfold settle_bound in *; step_cases.
  all: repeat split; try done; try lia.
Qed.

Lemma run_thread_cons n w :
  terminated w = false →
  run throws (replicate (S n) AThread) w =
  match thread_step throws w with
  | None => None
  | Some (w1, e1) =>
      match run throws (replicate n AThread) w1 with
      | None => None
      | Some (w2, e2) => Some (w2, e1 ++ e2)
      end
  end.
Proof. intros Ht. cbn. unfold act. rewrite Ht. reflexivity. Qed.

Lemma thread_step_not_terminated w w1 e1 :
  thread_step throws w = Some (w1, e1) → terminated w = false.
Proof. destruct w as [[[p jc]|] m c sr js ss sp]; step_cases; done. Qed.

(** Left alone on a worker nobody stops, the thread comes to a point
    where it can go no further. *)
Lemma thread_settles n : ∀ w,
  (settle_bound w ≤ n)%nat → stop_request w = false →
  ∃ k w' e',
    run throws (replicate k AThread) w = Some (w', e')
    ∧ thread_step throws w' = None
    ∧ (is_Some (thread w) → is_Some (thread w')).
Proof.
  induction n as [|n IH]; intros w Hbound Hsr.
  all: destruct (thread_step throws w) as [[w1 e1]|] eqn:Hstep;
    [| exists 0%nat, w, []; done].
  all: destruct (thread_step_decreases _ _ _ Hsr Hstep) as (Hsr1 & Hth1 & Hlt).
  - lia.
  - destruct (IH w1 ltac:(lia) Hsr1) as (k & w' & e' & Hrun & Hblocked & Hth).
    exists (S k), w', (e1 ++ e').
    rewrite run_thread_cons by (eapply thread_step_not_terminated; eauto).
    rewrite Hstep, Hrun. auto.
Qed.

Lemma no_stop_thread k : no_stop (replicate k (AThread (Job := Job))).
Proof. apply Forall_replicate. split; discriminate. Qed.

Lemma pushes_thread k : pushes (replicate k (AThread (Job := Job))) = [].
Proof. induction k; [reflexivity | exact IHk]. Qed.

Lemma start_result_false wait_to_start w :
  (start wait_to_start w).1 = false.
Proof. unfold start. repeat case_match; reflexivity. Qed.

Lemma no_step_when_terminated a w :
  terminated w = true → act throws a w = None.
Proof. intros Ht. unfold act. rewrite Ht. reflexivity. Qed.

(** A step of the thread invokes the first job of what it has still
    to get to, or none, and drops nothing. *)
Lemma thread_step_pending w w1 e1 :
  batch_ok w → thread_step throws w = Some (w1, e1) →
  batch_ok w1
  ∧ (terminated w1 = false →
     e1 ++ callable (pending w1) = callable (pending w)).
Proof.
  intros Hok Hstep. destruct w as [[[p jc]|] m c sr js ss sp].
  all: step_cases; split; auto; intros; try discriminate.
  all: rewrite ?omap_app, ?app_nil_r; reflexivity.
Qed.

(** *** [stop()] after its join *)

Lemma act_join w w1 e0 :
  act throws AStopJoin w = Some (w1, e0) →
  e0 = []
  ∧ w1 = mkWorker None (Some HoldStop) (counter w) (stop_request w)
                  (jobs w) (start_sync w) SpCounter.
Proof.
  intros Hact. destruct w as [[[p jc]|] m c sr js ss sp]; step_cases; done.
Qed.

(** With nothing pushed meanwhile, the loop of [stop()] pops every job
    and the call returns. *)
Lemma pop_loop_alone (js : list (function Job)) c sr ss :
  run throws (replicate (2 * length js + 2) AStopTail)
      (mkWorker None (Some HoldStop) c sr js ss SpEmpty)
  = Some (mkWorker None None c false [] ss SpJoin, []).
Proof.
  induction js as [|job js IH]; [reflexivity|].
  replace (2 * length (job :: js) + 2)%nat
    with (S (S (2 * length js + 2))) by (cbn [length]; lia).
  cbn [replicate]. rewrite !run_cons. cbn -[Nat.mul Nat.add].
  rewrite IH. reflexivity.
Qed.

Lemma stop_tail_alone (js : list (function Job)) c sr ss :
  run throws (tail_steps (length js))
      (mkWorker None (Some HoldStop) c sr js ss SpCounter)
  = Some (mkWorker None None 0%N false [] ss SpJoin, []).
Proof.
  unfold tail_steps.
  replace (2 * length js + 3)%nat with (S (2 * length js + 2)) by lia.
  cbn [replicate]. rewrite run_cons. cbn -[Nat.mul Nat.add].
  rewrite pop_loop_alone. reflexivity.
Qed.



(** ** The claims, for every type of job *)


(** C9, amended.  The jobs invoked are always, in the order of their
    invocation, a subsequence of the non-empty jobs pushed, in push
    order.  On a worker that nobody stops they are an initial part of
    that list, cut after the first job that throws; and, fewer than
    2^32 jobs having been pushed, the thread left to itself goes on to
    invoke the rest of it.  So a job that returns does not keep the
    later jobs from running, and a job that throws ends the thread. *)
Theorem worker_invokes_in_push_order s w e :
  run throws s Worker_new = Some (w, e) →
  e `sublist_of` callable (pushes s)
  ∧ (no_stop s →
     e `prefix_of` until_throw throws (callable (pushes s))
     ∧ (is_Some (thread w) →
        (N.of_nat (length (pushes s)) < 2 ^ 32)%N →
        ∃ k w' e',
          run throws (replicate k AThread) w = Some (w', e')
          ∧ e ++ e' = until_throw throws (callable (pushes s)))).
Proof.
  intros Hrun. split.
  - destruct (run_sublist s Worker_new w e I Hrun) as [_ Hsub].
    cbn in Hsub. etrans; [|exact Hsub]. apply sublist_inserts_r. reflexivity.
  - intros Hs.
    destruct (run_exact s _ _ _ running_new Hs Hrun) as (Hw & Heq & Hlen).
    change (rem throws Worker_new (callable (pushes s)))
      with (until_throw throws (callable (pushes s))) in Heq.
    split.
    + rewrite <- Heq. apply prefix_app_r. reflexivity.
    + intros Hth Hbound.
      destruct (thread_settles (settle_bound w) w (le_n _) (proj1 (proj2 Hw)))
        as (k & w' & e' & Hrest & Hblocked & Hth').
      exists k, w', e'. split; [exact Hrest|].
      destruct (run_exact _ _ _ _ Hw (no_stop_thread k) Hrest)
        as (Hw' & Heq' & Hlen').
      rewrite pushes_thread in Heq', Hlen'. cbn in Heq', Hlen, Hlen'.
      rewrite (blocked_nothing_left w' Hw') in Heq'.
      * rewrite app_nil_r in Heq'. rewrite Heq'. exact Heq.
      * destruct (Hth' Hth) as [t Ht]. rewrite Ht. discriminate.
      * exact Hblocked.
      * unfold pending in Hlen, Hlen'. rewrite length_app in Hlen'. lia.
Qed.

(** ** Further properties of the worker *)

Lemma run_app s1 s2 w :
  run throws (s1 ++ s2) w
  = match run throws s1 w with
    | Some (w1, e1) =>
        match run throws s2 w1 with
        | Some (w2, e2) => Some (w2, e1 ++ e2)
        | None => None
        end
    | None => None
    end.
Proof.
  revert w. induction s1 as [|a s1 IH]; intros w.
  - cbn. destruct (run throws s2 w) as [[w2 e2]|]; reflexivity.
  - cbn [app]. rewrite !run_cons.
    destruct (act throws a w) as [[w1 e1]|]; [|reflexivity].
    rewrite IH. destruct (run throws s1 w1) as [[w2 e2]|]; [|reflexivity].
    destruct (run throws s2 w2) as [[w3 e3]|]; [|reflexivity].
    rewrite app_assoc. reflexivity.
Qed.

Lemma push_all_snoc fs job w :
  push_all (fs ++ [job]) w = push job (push_all fs w).
Proof. unfold push_all. rewrite foldl_snoc. reflexivity. Qed.

Lemma push_all_fields fs w :
  thread (push_all fs w) = thread w
  ∧ thread_mutex (push_all fs w) = thread_mutex w
  ∧ stop_request (push_all fs w) = stop_request w
  ∧ jobs (push_all fs w) = jobs w ++ fs
  ∧ start_sync (push_all fs w) = start_sync w.
Proof.
  induction fs as [|job fs IH] using rev_ind.
  - cbn. rewrite app_nil_r. done.
  - rewrite push_all_snoc. destruct IH as (Ht & Hm & Hs & Hj & Hss).
    cbn. rewrite Hj, app_assoc. done.
Qed.

Lemma push_all_pending (fs : list (function Job)) w :
  pending (push_all fs w) = pending w ++ fs
  ∧ (batch_ok w → batch_ok (push_all fs w))
  ∧ terminated (push_all fs w) = terminated w.
Proof.
  destruct (push_all_fields fs w) as (Ht & _ & _ & Hj & _).
  unfold pending, batch, batch_ok, terminated. rewrite Ht, Hj, app_assoc.
  done.
Qed.

Lemma run_pushes fs : ∀ w,
  terminated w = false →
  run throws (APush <$> fs) w = Some (push_all fs w, []).
Proof.
  induction fs as [|job fs IH]; intros w Ht; [reflexivity|].
  cbn [fmap list_fmap]. rewrite run_cons. unfold act. rewrite Ht.
  rewrite IH; [reflexivity|]. unfold terminated. exact Ht.
Qed.

Lemma pushes_of_pushes (fs : list (function Job)) :
  pushes (APush <$> fs) = fs.
Proof. induction fs as [|job fs IH]; [reflexivity|]. cbn. by rewrite IH. Qed.

Lemma no_stop_pushes (fs : list (function Job)) : no_stop (APush <$> fs).
Proof.
  apply Forall_fmap, Forall_forall. intros job _. split; discriminate.
Qed.

(** On a worker nobody stops, the thread left to itself goes on to
    invoke all that the state holds. *)
Lemma thread_drains w :
  running w → is_Some (thread w) →
  (N.of_nat (length (pending w)) < 2 ^ 32)%N →
  ∃ k w' e',
    run throws (replicate k AThread) w = Some (w', e')
    ∧ e' = rem throws w [].
Proof.
  intros Hw Hth Hbound.
  destruct (thread_settles (settle_bound w) w (le_n _) (proj1 (proj2 Hw)))
    as (k & w' & e' & Hrest & Hblocked & Hth').
  exists k, w', e'. split; [exact Hrest|].
  destruct (run_exact _ _ _ _ Hw (no_stop_thread k) Hrest)
    as (Hw' & Heq' & Hlen').
  rewrite pushes_thread in Heq', Hlen'. cbn in Heq', Hlen'.
  rewrite (blocked_nothing_left w' Hw') in Heq'.
  - rewrite app_nil_r in Heq'. exact Heq'.
  - destruct (Hth' Hth) as [t Ht]. rewrite Ht. discriminate.
  - exact Hblocked.
  - unfold pending in Hbound, Hlen'. rewrite !length_app in *. lia.
Qed.

(** X16.  After [stop()] has joined the thread and gone on to its
    return with no [push] in between, the worker can be used again:
    jobs pushed from then on, while no thread exists, are kept, and
    once [start()] has spawned a thread it goes on to invoke them in
    push order, up to and including the first that throws. *)
Theorem restart_runs_new_jobs w w1 e0 fs wait_to_start :
  act throws AStopJoin w = Some (w1, e0) →
  (N.of_nat (length fs) < 2 ^ 32)%N →
  ∃ k w',
    run throws (tail_steps (length (jobs w))
                  ++ (APush <$> fs)
                  ++ AStart wait_to_start :: replicate k AThread) w1
    = Some (w', until_throw throws (callable fs)).
Proof.
  intros Hjoin Hbound. apply act_join in Hjoin as [-> ->].
  set (w2 := mkWorker None None 0%N false [] (start_sync w) SpJoin
             : Worker Job).
  assert (running w2) as Hw2 by (repeat split; discriminate).
  destruct (push_all_fields fs w2) as (Ht & Hm & Hs & Hj & Hss).
  set (w3 := (start wait_to_start (push_all fs w2)).2).
  assert (run throws ((APush <$> fs) ++ [AStart wait_to_start]) w2
          = Some (w3, [])) as Hrun1.
  { rewrite run_app, run_pushes by reflexivity.
    rewrite run_cons. unfold act, terminated. rewrite Ht. reflexivity. }
  assert (no_stop ((APush <$> fs) ++ [AStart wait_to_start])) as Hns.
  { apply Forall_app. split; [apply no_stop_pushes|].
    repeat constructor; discriminate. }
  destruct (run_exact _ _ _ _ Hw2 Hns Hrun1) as (Hw3 & Heq & Hlen).
  assert (pushes ((APush <$> fs) ++ [AStart wait_to_start]) = fs) as Hp.
  { clear. induction fs as [|job fs IH]; [reflexivity|]. cbn. by rewrite IH. }
  rewrite Hp in Heq, Hlen. cbn in Heq, Hlen.
  assert (is_Some (thread w3)) as Hth3.
  { subst w3. unfold start. rewrite Hm, Ht. eexists. reflexivity. }
  destruct (thread_drains w3 Hw3 Hth3) as (k & w' & e' & Hrun2 & He');
    [lia|].
  exists k, w'.
  rewrite run_app, stop_tail_alone. fold w2.
  change ((APush <$> fs) ++ AStart wait_to_start :: replicate k AThread)
    with ((APush <$> fs) ++ [AStart wait_to_start] ++ replicate k AThread).
  rewrite app_assoc, run_app, Hrun1, Hrun2. cbn. congruence.
Qed.

(** One transition of a worker that is winding down. *)
Lemma act_winding_down a w w1 e1 :
  winding_down w → a ≠ AStopJoin → act throws a w = Some (w1, e1) →
  winding_down w1
  ∧ e1 ++ remaining_batch w1 `sublist_of` remaining_batch w.
Proof.
  intros (Hsr & Hm & Hpc) Hna Hact.
  destruct w as [[[p jc]|] m c sr js ss sp]; [|done].
  cbn in Hsr, Hm. subst sr m.
  unfold winding_down, remaining_batch in *. step_cases.
  all: repeat split; try done.
  all: try (apply sublist_nil_l).
  apply sublist_skip, sublist_nil_l.
Qed.

(** X17.  Once [stop()] has been requested and the thread is past the
    wait the request woke it from, the thread takes nothing more from
    the shared queue: until the join, whatever is pushed and whoever
    calls [start] or [stop], the jobs invoked come from the batch the
    thread holds, in order. *)
Theorem winding_down_runs_only_its_batch s : ∀ w w' e,
  winding_down w → no_join s →
  run throws s w = Some (w', e) →
  e `sublist_of` callable (batch w) ∧ winding_down w'.
Proof.
  assert (∀ w w' e, winding_down w → no_join s →
                    run throws s w = Some (w', e) →
                    e ++ remaining_batch w' `sublist_of` remaining_batch w
                    ∧ winding_down w') as Hgen.
  { induction s as [|a s IH]; intros w w' e Hw Hs Hrun.
    - cbn in Hrun. simplify_eq. done.
    - rewrite run_cons in Hrun.
      destruct (act throws a w) as [[w1 e1]|] eqn:Hact; [|discriminate].
      destruct (run throws s w1) as [[w2 e2]|] eqn:Hrest; [|discriminate].
      simplify_eq. apply Forall_cons in Hs as [Ha Hs].
      destruct (act_winding_down a w w1 e1 Hw Ha Hact) as [Hw1 Hsub1].
      destruct (IH w1 w' e2 Hw1 Hs Hrest) as [Hsub Hw'].
      split; [|exact Hw'].
      rewrite <- app_assoc. etrans; [|exact Hsub1].
      apply sublist_app; [reflexivity | exact Hsub]. }
  intros w w' e Hw Hs Hrun.
  destruct (Hgen w w' e Hw Hs Hrun) as [Hsub Hw']. split; [|exact Hw'].
  etrans; [apply sublist_inserts_r; reflexivity|].
  etrans; [exact Hsub|].
  unfold remaining_batch. destruct (terminated w); [apply sublist_nil_l|done].
Qed.

Lemma counter_push_all fs : ∀ w,
  counter (push_all (Job := Job) fs w)
  = if decide (fs = []) then counter w
    else uint32 (counter w + N.of_nat (length fs)).
Proof.
  induction fs as [|job fs IH] using rev_ind; intros w; [reflexivity|].
  rewrite push_all_snoc, decide_False by (intros ?%app_eq_nil; naive_solver).
  cbn [push counter]. rewrite IH. destruct (decide (fs = [])) as [->|_].
  - cbn. reflexivity.
  - rewrite length_app. cbn [length]. unfold uint32.
    rewrite N.Div0.add_mod_idemp_l. f_equal. lia.
Qed.

(** X18.  [counter] is a 32-bit count of the pushes since the thread
    last took the queue.  A thread that waits with [counter] at 0 is
    let in after [n] pushes, where [n] is not 0, exactly when [n] is
    not a multiple of 2^32. *)
Theorem waiting_thread_woken_unless_counter_wraps w jc fs :
  thread w = Some (mkThread PcWait jc) →
  stop_request w = false →
  counter w = 0%N →
  fs ≠ [] →
  is_Some (thread_step throws (push_all fs w))
  ↔ (N.of_nat (length fs) mod 2 ^ 32 ≠ 0)%N.
Proof.
  intros Hth Hsr Hc Hfs.
  destruct (push_all_fields fs w) as (Ht & _ & Hs & _ & _).
  pose proof (counter_push_all fs w) as Hcount.
  rewrite decide_False, Hc, N.add_0_l in Hcount by exact Hfs.
  unfold thread_step. rewrite Ht, Hth, Hs, Hsr, Hcount. cbn.
  rewrite orb_false_r. unfold uint32.
  destruct (N.ltb_spec 0 (N.of_nat (length fs) mod 2 ^ 32)) as [Hlt|Hge].
  - split; [intros _; lia | intros _; eexists; reflexivity].
  - split; [intros [? ?]; discriminate|].
    intros Hne. exfalso. apply Hne, N.le_0_r, Hge.
Qed.

Lemma act_lock_ok a w w1 e1 :
  lock_ok w → act throws a w = Some (w1, e1) → lock_ok w1.
Proof.
  intros Hok Hact.
  destruct w as [[[[[]| | | | |] jc]|] [[]|] c [] js [] sp].
  all: unfold lock_ok, at_waited_entry, past_entry in *; cbn in Hok.
  all: repeat match goal with
              | H : _ ∧ _ |- _ => destruct H
              | H : _ ∨ _ |- _ => destruct H
              end; try discriminate.
  all: step_cases.
  all: repeat split; try done; try (left; done); try (right; done); eauto.
Qed.

Lemma run_lock_ok s : ∀ w w' e,
  lock_ok w → run throws s w = Some (w', e) → lock_ok w'.
Proof.
  induction s as [|a s IH]; intros w w' e Hok Hrun.
  - cbn in Hrun. simplify_eq. exact Hok.
  - rewrite run_cons in Hrun.
    destruct (act throws a w) as [[w1 e1]|] eqn:Hact; [|discriminate].
    destruct (run throws s w1) as [[w2 e2]|] eqn:Hrest; [|discriminate].
    simplify_eq. eapply IH; [|exact Hrest]. eapply act_lock_ok; eauto.
Qed.

(** X19.  In every state a worker can reach: [stop_request] is set
    exactly while a [stop()] that found a thread holds [thread_mutex],
    from its request to its return;
    a [start(true)] that waits for the thread is never stuck, since
    the thread can step or the signal is there; and when
    [start(true)] returns, the thread is past its entry. *)
Theorem start_and_stop_flags_agree s w e :
  run throws s Worker_new = Some (w, e) →
  (stop_request w = true ↔ thread_mutex w = Some HoldStop)
  ∧ (thread_mutex w = Some HoldStart →
     is_Some (thread_step throws w) ∨ is_Some (start_resume w))
  ∧ (∀ w', start_resume w = Some w' → past_entry w' = true).
Proof.
  intros Hrun.
  assert (lock_ok w) as Hok
    by (eapply run_lock_ok; [|exact Hrun]; repeat split).
  clear Hrun.
  destruct w as [[[[[]| | | | |] jc]|] [[]|] c [] js [] sp].
  all: unfold lock_ok, at_waited_entry, past_entry in *; cbn in Hok.
  all: try (exfalso; intuition discriminate).
  all: unfold start_resume, thread_step; cbn.
  all: repeat split; intros; simplify_eq/=; try done; eauto.
Qed.

End Schedules.

(** ** Concrete schedules, with jobs named by numbers *)

Lemma waiting_with_job7_reachable :
  run never_throws [AStart false; AThread; AThread; APush (Some 7%nat)]
      Worker_new
  = Some (waiting_with_job7, []).
Proof. reflexivity. Qed.

Lemma joinable_with_job8_reachable :
  run never_throws
      [AStopRequest; AThread; APush (Some 8%nat); AThread; AThread; AThread]
      waiting_with_job7
  = Some (joinable_with_job8, [7%nat]).
Proof. reflexivity. Qed.



(** A [push] that falls between two steps of [stop()] after the join:
    job 9, pushed while the loop pops job 8, is popped as well and
    leaves [counter] at 1 over an empty queue; the thread of the next
    [start()] finds nothing to invoke. *)
Lemma push_during_stop_is_dropped :
  run never_throws
      [AStopTail; AStopTail; APush (Some 9%nat); AStopTail; AStopTail;
       AStopTail; AStopTail; AStopTail]
      joined_with_job8
  = Some ({| thread := None; thread_mutex := None; counter := 1%N;
             stop_request := false; jobs := []; start_sync := false;
             stop_pc := SpJoin |}, [])
  ∧ run never_throws
      [AStart false; AThread; AThread; AThread; AThread; AThread]
      {| thread := None; thread_mutex := None; counter := 1%N;
         stop_request := false; jobs := []; start_sync := false;
         stop_pc := SpJoin |}
    = Some ({| thread := Some (mkThread PcWait []); thread_mutex := None;
               counter := 0%N; stop_request := false; jobs := [];
               start_sync := false; stop_pc := SpJoin |}, []).
Proof. split; reflexivity. Qed.

(** A [push] that falls after the loop of [stop()] has found the queue
    empty: job 9 outlasts the [stop()]. *)
Lemma push_after_pop_loop_is_kept :
  run never_throws
      [AStopTail; AStopTail; AStopTail; AStopTail; APush (Some 9%nat);
       AStopTail]
      joined_with_job8
  = Some ({| thread := None; thread_mutex := None; counter := 1%N;
             stop_request := false; jobs := [Some 9%nat];
             start_sync := false; stop_pc := SpJoin |}, []).
Proof. reflexivity. Qed.

(** C5.  [start(false)] on a new worker spawns the thread and returns
    [false]; indeed every path of [start] returns [false]. *)
Theorem start_spawns_and_returns_false :
  start false (Worker_new (Job := nat)) =
    (false,
     {| thread := Some (mkThread (PcEntry false) []); thread_mutex := None;
        counter := 0%N; stop_request := false; jobs := [];
        start_sync := false; stop_pc := SpJoin |})
  ∧ ∀ (wait_to_start : bool) (w : Worker nat),
      (start wait_to_start w).1 = false.
Proof. split; [reflexivity | apply start_result_false]. Qed.

(** C9, as stated, fails: jobs 1 and 2 are pushed in that order, job 1
    throws, and job 2 is never invoked: no transition is left. *)
Lemma throwing_job_stops_later_jobs :
  run job1_throws
      [AStart false; APush (Some 1%nat); APush (Some 2%nat);
       AThread; AThread; AThread; AThread] Worker_new
  = Some (terminated_by_job1, [1%nat])
  ∧ ∀ s w' e, run job1_throws s terminated_by_job1 = Some (w', e) → e = [].
Proof.
  split; [reflexivity|].
  intros [|a s] w' e Hrun.
  - cbn in Hrun. congruence.
  - rewrite run_cons, no_step_when_terminated in Hrun by reflexivity.
    discriminate Hrun.
Qed.

(** After [fifo_schedule] the thread has taken jobs 0, an empty
    function object, 3 and 2 into its batch and has invoked none; it
    goes on to invoke 0, 3, 2. *)
Lemma worker_invokes_in_push_order_witness :
  ∃ k w' e',
    run job1_throws (replicate k AThread) draining_fifo = Some (w', e')
    ∧ [] ++ e' = until_throw job1_throws (callable (pushes fifo_schedule)).
Proof.
  refine (proj2 (proj2 (worker_invokes_in_push_order job1_throws fifo_schedule
                          draining_fifo [] _) _) _ _).
  - reflexivity.
  - unfold no_stop, fifo_schedule. repeat constructor; discriminate.
  - eexists. reflexivity.
  - reflexivity.
Defined.

(** ** Witnesses of the further properties *)

(** After the join of [joinable_with_job8], [stop()] goes on to its
    return, jobs 3, an empty function object and 4 are pushed and
    [start(false)] is called: the thread invokes 3 and 4. *)
Lemma restart_runs_new_jobs_witness :
  ∃ k w',
    run never_throws
        (tail_steps 1
           ++ (APush <$> [Some 3%nat; None; Some 4%nat])
           ++ AStart false :: replicate k AThread) joined_with_job8
    = Some (w', until_throw never_throws
                  (callable [Some 3%nat; None; Some 4%nat])).
Proof.
  apply (restart_runs_new_jobs never_throws joinable_with_job8
           joined_with_job8 [] [Some 3%nat; None; Some 4%nat] false);
    reflexivity.
Defined.

(** From [stopping_with_batch], job 9 is pushed and the thread runs to
    its return: it invokes job 7 of its batch and neither 8 nor 9. *)
Lemma winding_down_runs_only_its_batch_witness :
  [7%nat] `sublist_of` callable (batch stopping_with_batch)
  ∧ winding_down
      {| thread := Some (mkThread PcReturned []);
         thread_mutex := Some HoldStop; counter := 2%N; stop_request := true;
         jobs := [Some 8%nat; Some 9%nat]; start_sync := false;
         stop_pc := SpJoin |}.
Proof.
  apply (winding_down_runs_only_its_batch never_throws
           [APush (Some 9%nat); AThread; AThread; AThread]
           stopping_with_batch).
  - repeat split; discriminate.
  - unfold no_join. repeat constructor; discriminate.
  - reflexivity.
Defined.

(** One push wakes the thread of [waiting_idle]. *)
Lemma waiting_thread_woken_unless_counter_wraps_witness :
  is_Some (thread_step never_throws (push_all [Some 1%nat] waiting_idle))
  ↔ (N.of_nat (length [Some 1%nat]) mod 2 ^ 32 ≠ 0)%N.
Proof.
  apply (waiting_thread_woken_unless_counter_wraps never_throws
           waiting_idle [] [Some 1%nat]); try reflexivity.
  discriminate.
Defined.

(** After [start(true)] and one step of the thread, on a new worker. *)
Lemma start_and_stop_flags_agree_witness :
  (stop_request started_and_signalled = true
   ↔ thread_mutex started_and_signalled = Some HoldStop)
  ∧ (is_Some (thread_step never_throws started_and_signalled)
     ∨ is_Some (start_resume started_and_signalled)).
Proof.
  destruct (start_and_stop_flags_agree never_throws [AStart true; AThread]
              started_and_signalled [] eq_refl)
    as (Hflag & Hstuck & _).
  split; [exact Hflag | exact (Hstuck eq_refl)].
Defined.

(** ** Sync and SyncPair *)

(** X20.  A [Sync] holds one signal at most: however many times
    [wake()] has been called, one [wait()] returns and the next one
    blocks. *)
Theorem sync_wakes_do_not_add_up (n : nat) (s : Sync) :
  ∃ s' : Sync, wait (Nat.iter (S n) wake s) = Some s' ∧ wait s' = None.
Proof. exists (mkSync false). split; reflexivity. Qed.

Lemma pair_step_ok (who : bool) p p' :
  pair_ok p →
  (if who then waitForFirst_step p else waitForSecond_step p) = Some p' →
  pair_ok p'.
Proof.
  intros (Hf & Hs & Hcf & Hcs & Hmf & Hms) Hstep.
  destruct p as [[f] [s] [|[|[|nf]]] [|[|[|ns]]]]; cbn in *; try lia.
  all: subst f s; destruct who; cbn in Hstep; simplify_eq.
  all: repeat split; cbn; first [reflexivity | lia].
Qed.

Lemma pair_run_ok s : ∀ p p',
  pair_ok p → pair_run s p = Some p' → pair_ok p'.
Proof.
  induction s as [|who s IH]; intros p p' Hok Hrun.
  - cbn in Hrun. simplify_eq. exact Hok.
  - cbn in Hrun.
    destruct (if who then waitForFirst_step p else waitForSecond_step p)
      as [p1|] eqn:Hstep; [|discriminate].
    eapply IH; [|exact Hrun]. eapply pair_step_ok; eauto.
Qed.

(** X21.  One caller of [waitForFirst] and one of [waitForSecond] on a
    new [SyncPair] meet: however their steps interleave, neither has
    returned before the other has sent its signal, while one of them
    has not returned one of them can step, and when both have returned
    both signals have been consumed. *)
Theorem syncpair_callers_meet s p :
  pair_run s SyncPair_new = Some p →
  (in_waitForFirst p = 2%nat → (1 ≤ in_waitForSecond p)%nat)
  ∧ (in_waitForSecond p = 2%nat → (1 ≤ in_waitForFirst p)%nat)
  ∧ ((in_waitForFirst p < 2)%nat ∨ (in_waitForSecond p < 2)%nat →
     is_Some (waitForFirst_step p) ∨ is_Some (waitForSecond_step p))
  ∧ (in_waitForFirst p = 2%nat → in_waitForSecond p = 2%nat →
     cond (first p) = false ∧ cond (second p) = false).
Proof.
  intros Hrun.
  assert (pair_ok p) as (Hf & Hs & Hcf & Hcs & Hmf & Hms).
  { eapply pair_run_ok; [|exact Hrun]. repeat split; cbn; lia. }
  clear Hrun.
  destruct p as [[f] [s'] [|[|[|nf]]] [|[|[|ns]]]]; cbn in *; try lia.
  all: subst f s'.
  all: repeat split; intros; try lia; try done; cbn; eauto.
Qed.

(** The caller of [waitForSecond] signals, the caller of
    [waitForFirst] signals and returns, then the first returns too. *)
Lemma syncpair_callers_meet_witness :
  cond (first (mkSyncPair (mkSync false) (mkSync false) 2 2)) = false
  ∧ cond (second (mkSyncPair (mkSync false) (mkSync false) 2 2)) = false.
Proof.
  exact (proj2 (proj2 (proj2
           (syncpair_callers_meet [false; true; true; false]
              (mkSyncPair (mkSync false) (mkSync false) 2 2) eq_refl)))
           eq_refl eq_refl).
Defined.

End WorkerTheory.

(* ===================================================================== *)
(** * Properties of the registry of UsbHost                               *)
(* ===================================================================== *)

Module HostTheory.
Import LibUsb Device threading Host.

(** ** The key of an identity *)

(** The keys [std::map] takes for one: neither is less than the other. *)
Lemma id_lt_equivalent a b :
  id_lt a b = false ∧ id_lt b a = false ↔ id_key a = id_key b.
Proof. unfold id_lt. rewrite !N.ltb_ge. lia. Qed.

Lemma UsbDeviceId_new_in_range v p : in_range (UsbDeviceId_new v p).
Proof. split; cbn; unfold uint16; apply N.mod_lt; discriminate. Qed.

Lemma id_key_in_range i :
  in_range i → id_key i = N.lor (N.shiftl (vendor i) 16) (product i).
Proof.
  intros [Hv Hp]. unfold id_key, uint32.
  rewrite (N.mod_small (vendor i)) by lia.
  rewrite (N.mod_small (product i)) by lia.
  rewrite N.mod_small; [reflexivity|].
  rewrite N.shiftl_mul_pow2. change (2 ^ 32)%N with (2 ^ 16 * 2 ^ 16)%N.
  apply N.mul_lt_mono_pos_r; [reflexivity | exact Hv].
Qed.

Lemma id_key_vendor i : in_range i → N.shiftr (id_key i) 16 = vendor i.
Proof.
  intros Hi. rewrite (id_key_in_range i Hi). destruct Hi as [Hv Hp].
  rewrite N.shiftr_lor, N.shiftr_shiftl_l by reflexivity.
  rewrite N.sub_diag, N.shiftl_0_r, (N.shiftr_div_pow2 (product i)).
  rewrite N.div_small by exact Hp. apply N.lor_0_r.
Qed.

Lemma id_key_product i :
  in_range i → N.land (id_key i) (N.ones 16) = product i.
Proof.
  intros Hi. rewrite (id_key_in_range i Hi). destruct Hi as [Hv Hp].
  rewrite N.land_lor_distr_l, !N.land_ones, N.shiftl_mul_pow2.
  rewrite N.Div0.mod_mul, N.mod_small by exact Hp. reflexivity.
Qed.

(** Two identities that [operator<] does not tell apart are equal. *)
Lemma id_key_inj i j : in_range i → in_range j → id_key i = id_key j → i = j.
Proof.
  intros Hi Hj Hk.
  pose proof (id_key_vendor i Hi) as Hv. pose proof (id_key_product i Hi) as Hp.
  rewrite Hk, (id_key_vendor j Hj) in Hv. rewrite Hk, (id_key_product j Hj) in Hp.
  destruct i, j; cbn in *; congruence.
Qed.

Lemma createUsbDeviceId_in_range device id :
  createUsbDeviceId device = Some id → in_range id.
Proof.
  unfold createUsbDeviceId. case_match; [|discriminate].
  intros [= <-]. apply UsbDeviceId_new_in_range.
Qed.

Section Registry.
Context {Callback : Type}.
Implicit Types (h : UsbHost Callback) (devices : list libusb_device).

Lemma arrivals_cons device devices h :
  arrivals (device :: devices) h
  = arrivals devices (registerLibUsbDevice device h).2.
Proof. reflexivity. Qed.

Lemma first_arrival_cons id device devices :
  first_arrival id (device :: devices)
  = if decide (createUsbDeviceId device = Some id) then Some device
    else first_arrival id devices.
Proof.
  unfold first_arrival. rewrite filter_cons. case_decide; reflexivity.
Qed.

(** The map after one arrival. *)
Lemma registerLibUsbDevice_devices device h :
  mDevices (registerLibUsbDevice device h).2
  = match createUsbDeviceId device with
    | Some id =>
        match mDevices h !! id_key id with
        | None => <[id_key id := (id, UsbDevice_new (dev_ptr device) id)]>
                    (mDevices h)
        | Some _ => mDevices h
        end
    | None => mDevices h
    end.
Proof.
  unfold registerLibUsbDevice. repeat case_match; reflexivity.
Qed.

(** An arrival whose identity is in the map leaves the host as it is. *)
Lemma registerLibUsbDevice_present device id h :
  createUsbDeviceId device = Some id →
  is_Some (mDevices h !! id_key id) →
  registerLibUsbDevice device h = (0, h).
Proof.
  intros Hid [x Hx]. unfold registerLibUsbDevice. rewrite Hid, Hx.
  reflexivity.
Qed.

(** The entry of an identity after a sequence of arrivals: the one it
    had, else the device made at its first arrival. *)
Lemma arrivals_lookup id devices : ∀ h,
  in_range id →
  mDevices (arrivals devices h) !! id_key id
  = match mDevices h !! id_key id with
    | Some entry => Some entry
    | None =>
        (λ device, (id, UsbDevice_new (dev_ptr device) id))
          <$> first_arrival id devices
    end.
Proof.
  induction devices as [|device devices IH]; intros h Hid.
  - cbn. destruct (mDevices h !! id_key id); reflexivity.
  - rewrite arrivals_cons, IH, registerLibUsbDevice_devices,
      first_arrival_cons by exact Hid.
    destruct (createUsbDeviceId device) as [i|] eqn:Hi.
    2:{ rewrite decide_False by discriminate. reflexivity. }
    pose proof (createUsbDeviceId_in_range _ _ Hi) as Hrange.
    destruct (decide (i = id)) as [->|Hne].
    + rewrite decide_True by reflexivity.
      destruct (mDevices h !! id_key id) as [entry|] eqn:Hentry.
      * rewrite Hentry. reflexivity.
      * rewrite lookup_insert_eq. reflexivity.
    + rewrite decide_False by congruence.
      assert (id_key i ≠ id_key id) as Hkey
        by (intros Hk; apply Hne, id_key_inj; assumption).
      destruct (mDevices h !! id_key i); [reflexivity|].
      rewrite lookup_insert_ne by exact Hkey. reflexivity.
Qed.

(** The keys after a sequence of arrivals. *)
Lemma arrivals_dom devices : ∀ h,
  dom (mDevices (arrivals devices h))
  = dom (mDevices h)
    ∪ list_to_set (id_key <$> omap createUsbDeviceId devices).
Proof.
  induction devices as [|device devices IH]; intros h.
  - cbn. set_solver.
  - rewrite arrivals_cons, IH, registerLibUsbDevice_devices. cbn.
    destruct (createUsbDeviceId device) as [i|] eqn:Hi; cbn; [|done].
    destruct (mDevices h !! id_key i) as [entry|] eqn:Hentry.
    + apply (elem_of_dom_2 (D := gset N)) in Hentry. set_solver.
    + rewrite dom_insert_L. set_solver.
Qed.

(** ** The claim *)

(** C8.  After the arrival events [devices] on a host whose registry
    was empty: [getDevice] of an identity gives the device made from
    the first arrival of that identity, and nothing if there was
    none; the keys of the registry are those of the identities that
    arrived; and an arrival whose identity is in the registry leaves
    the host, its registry and the queue of its worker, as it is. *)
Theorem arrivals_keep_first_of_each_identity devices h :
  mDevices h = ∅ →
  (∀ vendor_id product_id,
     getDevice vendor_id product_id (arrivals devices h)
     = (λ device,
          UsbDevice_new (dev_ptr device)
                        (UsbDeviceId_new vendor_id product_id))
         <$> first_arrival (UsbDeviceId_new vendor_id product_id) devices)
  ∧ dom (mDevices (arrivals devices h))
    = list_to_set (id_key <$> omap createUsbDeviceId devices)
  ∧ (∀ h' device id,
       createUsbDeviceId device = Some id →
       is_Some (mDevices h' !! id_key id) →
       registerLibUsbDevice device h' = (0, h')).
Proof.
  intros Hempty. repeat split.
  - intros v p. unfold getDevice.
    rewrite arrivals_lookup by apply UsbDeviceId_new_in_range.
    rewrite Hempty, lookup_empty.
    destruct (first_arrival _ devices); reflexivity.
  - rewrite arrivals_dom, Hempty, dom_empty_L. set_solver.
  - intros h' device id. apply registerLibUsbDevice_present.
Qed.

End Registry.

(** After [sample_arrivals], identity (0x1234, 0x5678) is the device
    made from address 10, its first arrival. *)
Lemma arrivals_keep_first_of_each_identity_witness :
  getDevice 0x1234 0x5678 (arrivals sample_arrivals sample_host)
  = Some (UsbDevice_new 10%N (UsbDeviceId_new 0x1234 0x5678)).
Proof.
  exact (proj1 (arrivals_keep_first_of_each_identity
                  sample_arrivals sample_host eq_refl) 0x1234%N 0x5678%N).
Defined.

Section Events.
Context {Callback : Type}.
Implicit Types (h : UsbHost Callback) (events : list (libusb_device * Z)).

(** The host after one event. *)
Lemma deliver_cons ev events h :
  deliver (ev :: events) h
  = deliver events
      (default h (libusbHotPlugCallback ev.1 ev.2 (Some h)).2).
Proof. reflexivity. Qed.

Lemma deliver_snoc events ev h :
  deliver (events ++ [ev]) h
  = default (deliver events h)
      (libusbHotPlugCallback ev.1 ev.2 (Some (deliver events h))).2.
Proof. unfold deliver. rewrite foldl_snoc. reflexivity. Qed.

Lemma UsbDeviceId_new_fields id :
  in_range id → UsbDeviceId_new (vendor id) (product id) = id.
Proof.
  intros [Hv Hp]. destruct id as [v p]. cbn in *.
  unfold UsbDeviceId_new, uint16. rewrite !N.mod_small by assumption.
  reflexivity.
Qed.

(** The entry of one identity after one event. *)
Lemma deliver_one_lookup id ev h :
  in_range id →
  mDevices (default h (libusbHotPlugCallback ev.1 ev.2 (Some h)).2)
    !! id_key id
  = if decide (concerns id ev)
    then
      if ev.2 =? LIBUSB_HOTPLUG_EVENT_DEVICE_ARRIVED
      then match mDevices h !! id_key id with
           | Some entry => Some entry
           | None => Some (id, UsbDevice_new (dev_ptr ev.1) id)
           end
      else if ev.2 =? LIBUSB_HOTPLUG_EVENT_DEVICE_LEFT
      then None
      else mDevices h !! id_key id
    else mDevices h !! id_key id.
Proof.
  intros Hid. destruct ev as [device event].
  destruct (decide (concerns id (device, event))) as [Hc|Hc];
    unfold concerns in Hc; cbn in *.
  - destruct (event =? LIBUSB_HOTPLUG_EVENT_DEVICE_ARRIVED).
    + rewrite registerLibUsbDevice_devices, Hc.
      destruct (mDevices h !! id_key id) eqn:Hentry; [exact Hentry|].
      apply lookup_insert_eq.
    + destruct (event =? LIBUSB_HOTPLUG_EVENT_DEVICE_LEFT); [|reflexivity].
      unfold unregisterLibUsbDevice. rewrite Hc. apply lookup_delete_eq.
  - assert (∀ i, createUsbDeviceId device = Some i → id_key i ≠ id_key id)
      as Hkey.
    { intros i Hi Hk. apply Hc. rewrite Hi. f_equal.
      apply id_key_inj; [|assumption..].
      eapply createUsbDeviceId_in_range, Hi. }
    destruct (event =? LIBUSB_HOTPLUG_EVENT_DEVICE_ARRIVED).
    + rewrite registerLibUsbDevice_devices.
      destruct (createUsbDeviceId device) as [i|]; [|reflexivity].
      destruct (mDevices h !! id_key i) eqn:Hentry; [reflexivity|].
      apply lookup_insert_ne, Hkey. reflexivity.
    + destruct (event =? LIBUSB_HOTPLUG_EVENT_DEVICE_LEFT); [|reflexivity].
      unfold unregisterLibUsbDevice.
      destruct (createUsbDeviceId device) as [i|]; [|reflexivity].
      apply lookup_delete_ne, Hkey. reflexivity.
Qed.

Lemma deliver_lookup_filtered id events : ∀ h1 h2,
  in_range id →
  mDevices h1 !! id_key id = mDevices h2 !! id_key id →
  mDevices (deliver events h1) !! id_key id
  = mDevices (deliver (filter (concerns id) events) h2) !! id_key id.
Proof.
  induction events as [|ev events IH]; intros h1 h2 Hid Hsame; [exact Hsame|].
  rewrite deliver_cons, filter_cons.
  destruct (decide (concerns id ev)) as [Hc|Hc].
  - rewrite deliver_cons. apply IH; [exact Hid|].
    rewrite !deliver_one_lookup, Hsame by exact Hid. reflexivity.
  - apply IH; [exact Hid|].
    rewrite deliver_one_lookup, decide_False by assumption. exact Hsame.
Qed.

(** X9.  What [getDevice] returns for an identity depends only on the
    events of devices that read as that identity: events of other
    identities, and of devices whose descriptor cannot be read, can be
    left out. *)
Theorem getDevice_ignores_other_identities vendor_id product_id events h :
  getDevice vendor_id product_id (deliver events h)
  = getDevice vendor_id product_id
      (deliver
         (filter (concerns (UsbDeviceId_new vendor_id product_id)) events) h).
Proof.
  unfold getDevice.
  rewrite (deliver_lookup_filtered _ events h h
             (UsbDeviceId_new_in_range _ _) eq_refl).
  reflexivity.
Qed.

(** X10.  The registry knows devices by vendor and product only.  When
    two devices of one identity arrive on a host that has none, the
    registry holds the first; and when the second leaves, the entry is
    erased, so [getDevice] finds nothing, while the callback queued
    for the arrival stays in the queue. *)
Theorem departure_erases_by_identity device1 device2 id h :
  createUsbDeviceId device1 = Some id →
  createUsbDeviceId device2 = Some id →
  mDevices h !! id_key id = None →
  let arrived :=
    deliver [(device1, LIBUSB_HOTPLUG_EVENT_DEVICE_ARRIVED);
             (device2, LIBUSB_HOTPLUG_EVENT_DEVICE_ARRIVED)] h in
  let left := deliver [(device2, LIBUSB_HOTPLUG_EVENT_DEVICE_LEFT)] arrived in
  getDevice (vendor id) (product id) arrived
  = Some (UsbDevice_new (dev_ptr device1) id)
  ∧ getDevice (vendor id) (product id) left = None
  ∧ mWorker left = mWorker arrived.
Proof.
  intros H1 H2 Hfree arrived left.
  pose proof (createUsbDeviceId_in_range _ _ H1) as Hid.
  unfold getDevice. rewrite (UsbDeviceId_new_fields id Hid).
  assert (mDevices arrived !! id_key id
          = Some (id, UsbDevice_new (dev_ptr device1) id)) as Harrived.
  { subst arrived. rewrite !deliver_cons.
    change (deliver [] ?x) with x.
    rewrite !deliver_one_lookup by exact Hid.
    rewrite !decide_True by assumption. cbn. rewrite Hfree. reflexivity. }
  repeat split.
  - rewrite Harrived. reflexivity.
  - subst left. rewrite deliver_cons. change (deliver [] ?x) with x.
    rewrite deliver_one_lookup by exact Hid.
    rewrite decide_True by assumption. reflexivity.
  - subst left. cbn. unfold unregisterLibUsbDevice. rewrite H2. reflexivity.
Qed.

End Events.

(** The host of [sample_host] sees a device of identity (1, 2) arrive at
    address 20, a second one at address 21, and the second one leave. *)
Lemma departure_erases_by_identity_witness :
  getDevice 1 2
    (deliver [(mkLibusbDevice 20%N LIBUSB_SUCCESS 1 2,
               LIBUSB_HOTPLUG_EVENT_DEVICE_ARRIVED);
              (mkLibusbDevice 21%N LIBUSB_SUCCESS 1 2,
               LIBUSB_HOTPLUG_EVENT_DEVICE_ARRIVED)] sample_host)
  = Some (UsbDevice_new 20%N (UsbDeviceId_new 1 2))
  ∧ getDevice 1 2
      (deliver [(mkLibusbDevice 21%N LIBUSB_SUCCESS 1 2,
                 LIBUSB_HOTPLUG_EVENT_DEVICE_LEFT)]
         (deliver [(mkLibusbDevice 20%N LIBUSB_SUCCESS 1 2,
                    LIBUSB_HOTPLUG_EVENT_DEVICE_ARRIVED);
                   (mkLibusbDevice 21%N LIBUSB_SUCCESS 1 2,
                    LIBUSB_HOTPLUG_EVENT_DEVICE_ARRIVED)] sample_host))
    = None.
Proof.
  destruct (departure_erases_by_identity
              (mkLibusbDevice 20%N LIBUSB_SUCCESS 1 2)
              (mkLibusbDevice 21%N LIBUSB_SUCCESS 1 2)
              (UsbDeviceId_new 1 2) sample_host eq_refl eq_refl eq_refl)
    as (Harrived & Hleft & _).
  split; [exact Harrived | exact Hleft].
Defined.

Section Callbacks.
Context {Callback : Type}.
Implicit Types (h : UsbHost Callback) (devices : list libusb_device).

(** One arrival pushes the callback jobs of the devices it adds to
    the registry: one job, or none. *)
Lemma registerLibUsbDevice_pushes device h cb :
  mPluggedInCallback h = Some cb →
  let h' := (registerLibUsbDevice device h).2 in
  mPluggedInCallback h' = Some cb
  ∧ ∃ news,
      mWorker h' = push_all ((λ d, Some (cb, d)) <$> news) (mWorker h)
      ∧ (map_to_list (mDevices h')).*2.*2
        ≡ₚ news ++ (map_to_list (mDevices h)).*2.*2
      ∧ mLibUsbDeviceContext <$> news `sublist_of` [dev_ptr device].
Proof.
  intros Hcb. unfold registerLibUsbDevice.
  destruct (createUsbDeviceId device) as [id|];
    [|cbn; split; [exact Hcb|]; exists [];
      repeat split; try done; apply sublist_nil_l].
  destruct (mDevices h !! id_key id) eqn:Hentry;
    [cbn; split; [exact Hcb|]; exists [];
     repeat split; try done; apply sublist_nil_l|].
  cbn. rewrite Hcb. cbn. split; [exact Hcb|].
  exists [UsbDevice_new (dev_ptr device) id]. repeat split.
  - rewrite map_to_list_insert by exact Hentry. reflexivity.
  - reflexivity.
Qed.

Lemma callable_jobs (cb : Callback) (news : list UsbDevice) :
  callable ((λ d, Some (cb, d)) <$> news) = (λ d, (cb, d)) <$> news.
Proof.
  unfold callable. induction news as [|d news IH]; [reflexivity|].
  cbn. rewrite IH. reflexivity.
Qed.

Lemma host_run_cons throws a s h :
  host_run throws (a :: s) h
  = match host_step throws a h with
    | None => None
    | Some (h1, e1) =>
        match host_run throws s h1 with
        | None => None
        | Some (h2, e2) => Some (h2, e1 ++ e2)
        end
    end.
Proof. reflexivity. Qed.

(** Nothing steps once a callback has thrown. *)
Lemma host_run_terminated throws s h h' e :
  terminated (mWorker h) = true →
  host_run throws s h = Some (h', e) → h' = h.
Proof.
  intros Ht Hrun. destruct s as [|a s]; [cbn in Hrun; congruence|].
  rewrite host_run_cons in Hrun. unfold host_step in Hrun.
  rewrite Ht in Hrun. discriminate.
Qed.

(** Over the steps of a host: the jobs invoked and those that wait are
    those that waited at the start, followed by one for each device
    that the arrivals have added to the registry. *)
Lemma host_run_callbacks throws s : ∀ h h' e cb,
  batch_ok (mWorker h) →
  mPluggedInCallback h = Some cb →
  host_run throws s h = Some (h', e) →
  terminated (mWorker h') = false →
  ∃ news,
    callbacks e h' = callbacks [] h ++ ((λ d, (cb, d)) <$> news)
    ∧ (map_to_list (mDevices h')).*2.*2
      ≡ₚ news ++ (map_to_list (mDevices h)).*2.*2
    ∧ mLibUsbDeviceContext <$> news `sublist_of` dev_ptr <$> arrived s.
Proof.
  unfold callbacks.
  induction s as [|a s IH]; intros h h' e cb Hok Hcb Hrun Hlive.
  - cbn in Hrun. simplify_eq. exists []. cbn. rewrite app_nil_r.
    repeat split; done.
  - rewrite host_run_cons in Hrun.
    destruct (host_step throws a h) as [[h1 e1]|] eqn:Hstep; [|discriminate].
    destruct (host_run throws s h1) as [[h2 e2]|] eqn:Hrest; [|discriminate].
    simplify_eq. unfold host_step in Hstep.
    destruct (terminated (mWorker h)) eqn:Hth; [discriminate|].
    destruct a as [device|].
    + simplify_eq.
      destruct (registerLibUsbDevice_pushes device h cb Hcb)
        as (Hcb1 & news1 & Hw1 & Hm1 & Hs1).
      destruct (WorkerTheory.push_all_pending
                  ((λ d, Some (cb, d)) <$> news1) (mWorker h))
        as (Hp1 & Hok1 & _).
      rewrite <- Hw1 in Hp1, Hok1.
      destruct (IH _ h' e2 cb (Hok1 Hok) Hcb1 Hrest Hlive)
        as (news2 & Hq2 & Hm2 & Hs2).
      exists (news1 ++ news2). repeat split.
      * cbn [app] in Hq2 |- *. rewrite Hq2, Hp1.
        rewrite WorkerTheory.callable_app, callable_jobs, fmap_app, app_assoc.
        reflexivity.
      * rewrite Hm2, Hm1, !app_assoc.
        apply Permutation_app_tail, Permutation_app_comm.
      * rewrite fmap_app. cbn [arrived omap fmap list_fmap].
        exact (sublist_app _ [dev_ptr device] _ _ Hs1 Hs2).
    + destruct (thread_step throws (mWorker h)) as [[w1 e1']|] eqn:Hthread;
        [|discriminate].
      simplify_eq.
      destruct (WorkerTheory.thread_step_pending throws _ _ _ Hok Hthread)
        as [Hok1 Hkeep].
      destruct (terminated w1) eqn:Hth1.
      { apply host_run_terminated in Hrest; [|exact Hth1]. subst h'.
        cbn in Hlive. congruence. }
      destruct (IH (set_worker w1 h) h' e2 cb Hok1 Hcb Hrest Hlive)
        as (news & Hq & Hm & Hs).
      exists news. repeat split; [|exact Hm|exact Hs].
      cbn [app] in Hq |- *. rewrite <- app_assoc, Hq. cbn [mWorker set_worker].
      rewrite app_assoc, Hkeep by reflexivity. reflexivity.
Qed.

(** X11.  On a host with a callback and an empty registry whose worker
    holds no job, however the steps of the worker thread fall between
    the calls of [registerLibUsbDevice], while no device leaves and as
    long as no callback has thrown: each device
    in the registry has one callback job and there is no other job,
    where a job counts that has been invoked or that waits in the
    batch of the thread or in the queue; every job carries the host's
    callback; and the jobs stand, invoked ones first, in the order in
    which their devices arrived. *)
Theorem one_callback_per_registered_device throws s h h' e cb :
  mDevices h = ∅ →
  pending (mWorker h) = [] →
  mPluggedInCallback h = Some cb →
  host_run throws s h = Some (h', e) →
  terminated (mWorker h') = false →
  (callbacks e h').*2 ≡ₚ (map_to_list (mDevices h')).*2.*2
  ∧ callbacks e h' = (λ d, (cb, d)) <$> (callbacks e h').*2
  ∧ mLibUsbDeviceContext <$> (callbacks e h').*2
    `sublist_of` dev_ptr <$> arrived s.
Proof.
  intros Hempty Hpending Hcb Hrun Hlive.
  assert (batch_ok (mWorker h)) as Hok.
  { unfold pending, batch in Hpending. unfold batch_ok.
    destruct (thread (mWorker h)) as [t|]; [|exact I].
    apply app_eq_nil in Hpending as [-> _]. destruct (pc t); done. }
  destruct (host_run_callbacks throws s h h' e cb Hok Hcb Hrun Hlive)
    as (news & Hq & Hm & Hs).
  rewrite Hempty, map_to_list_empty, app_nil_r in Hm.
  unfold callbacks at 2 in Hq. rewrite Hpending in Hq. cbn in Hq.
  assert (((λ d, (cb, d)) <$> news).*2 = news) as Hsnd.
  { rewrite <- list_fmap_compose. apply list_fmap_id. }
  rewrite Hq, Hsnd. repeat split; [symmetry; exact Hm | exact Hs].
Qed.

End Callbacks.

(** On [started_host], the steps [sample_steps]: the callback for the
    device at address 10 has been invoked, the one for the device at
    address 12 waits in the queue, and the registry holds these two
    devices. *)
Lemma one_callback_per_registered_device_witness :
  host_run no_callback_throws sample_steps started_host
  = Some (set_worker
            {| thread := Some (mkThread PcRun []); thread_mutex := None;
               counter := 1%N; stop_request := false;
               jobs := [Some (tt, UsbDevice_new 12%N (UsbDeviceId_new 1 2))];
               start_sync := false; stop_pc := SpJoin |}
            (arrivals sample_arrivals sample_host),
          [(tt, UsbDevice_new 10%N (UsbDeviceId_new 0x1234 0x5678))])
  ∧ [UsbDevice_new 10%N (UsbDeviceId_new 0x1234 0x5678);
     UsbDevice_new 12%N (UsbDeviceId_new 1 2)]
    ≡ₚ (map_to_list (mDevices (arrivals sample_arrivals sample_host))).*2.*2.
Proof.
  assert (host_run no_callback_throws sample_steps started_host
          = Some (set_worker
                    {| thread := Some (mkThread PcRun []);
                       thread_mutex := None;
                       counter := 1%N; stop_request := false;
                       jobs := [Some (tt, UsbDevice_new 12%N
                                             (UsbDeviceId_new 1 2))];
                       start_sync := false; stop_pc := SpJoin |}
                    (arrivals sample_arrivals sample_host),
                  [(tt, UsbDevice_new 10%N (UsbDeviceId_new 0x1234 0x5678))]))
    as Hrun by (vm_compute; reflexivity).
  split; [exact Hrun|].
  exact (proj1 (one_callback_per_registered_device no_callback_throws
                  sample_steps started_host _ _ tt
                  eq_refl eq_refl eq_refl Hrun eq_refl)).
Defined.

Section Discovery.
Context {Callback : Type}.
Implicit Types (h : UsbHost Callback) (devices : list libusb_device)
  (events : list (libusb_device * Z)).

(** Where an entry of the registry comes from. *)
Lemma deliver_entry_origin id events : ∀ h entry,
  in_range id →
  mDevices h = ∅ →
  mDevices (deliver events h) !! id_key id = Some entry →
  ∃ device,
    (device, LIBUSB_HOTPLUG_EVENT_DEVICE_ARRIVED) ∈ events
    ∧ createUsbDeviceId device = Some id
    ∧ entry = (id, UsbDevice_new (dev_ptr device) id).
Proof.
  induction events as [|ev events IH] using rev_ind;
    intros h entry Hid Hempty Hentry.
  - cbn in Hentry. rewrite Hempty, lookup_empty in Hentry. discriminate.
  - rewrite deliver_snoc, deliver_one_lookup in Hentry by exact Hid.
    assert (∀ e, mDevices (deliver events h) !! id_key id = Some e →
                 ∃ device,
                   (device, LIBUSB_HOTPLUG_EVENT_DEVICE_ARRIVED)
                     ∈ events ++ [ev]
                   ∧ createUsbDeviceId device = Some id
                   ∧ e = (id, UsbDevice_new (dev_ptr device) id)) as Hold.
    { intros e He. destruct (IH h e Hid Hempty He) as (device & Hin & Hrest).
      exists device. split; [|exact Hrest].
      apply elem_of_app. left. exact Hin. }
    destruct (decide (concerns id ev)) as [Hc|_]; [|apply Hold, Hentry].
    destruct (Z.eqb_spec ev.2 LIBUSB_HOTPLUG_EVENT_DEVICE_ARRIVED) as [Harr|_].
    + destruct (mDevices (deliver events h) !! id_key id) as [e|] eqn:He.
      * injection Hentry as <-. apply Hold. reflexivity.
      * injection Hentry as <-. exists ev.1. split; [|split; [exact Hc|done]].
        apply elem_of_app. right. apply list_elem_of_singleton.
        destruct ev as [device event]. cbn in *. congruence.
    + destruct (ev.2 =? LIBUSB_HOTPLUG_EVENT_DEVICE_LEFT); [discriminate|].
      apply Hold, Hentry.
Qed.

(** X12.  On a host whose registry was empty, whatever events follow,
    a device that [getDevice] returns carries the identity asked for
    and was made by the constructor from a device that an arrival
    event of that identity reported. *)
Theorem getDevice_returns_an_arrival vendor_id product_id events h d :
  mDevices h = ∅ →
  getDevice vendor_id product_id (deliver events h) = Some d →
  mId d = UsbDeviceId_new vendor_id product_id
  ∧ ∃ device,
      (device, LIBUSB_HOTPLUG_EVENT_DEVICE_ARRIVED) ∈ events
      ∧ createUsbDeviceId device = Some (UsbDeviceId_new vendor_id product_id)
      ∧ d = UsbDevice_new (dev_ptr device)
                          (UsbDeviceId_new vendor_id product_id).
Proof.
  intros Hempty Hget. unfold getDevice in Hget.
  destruct (mDevices (deliver events h)
              !! id_key (UsbDeviceId_new vendor_id product_id))
    as [entry|] eqn:Hentry; [|discriminate].
  injection Hget as <-.
  destruct (deliver_entry_origin _ events h entry
              (UsbDeviceId_new_in_range _ _) Hempty Hentry)
    as (device & Hin & Hid & ->).
  split; [reflexivity|]. exists device. done.
Qed.

Lemma arrivals_context devices : ∀ h,
  mLibUsbContext (arrivals devices h) = mLibUsbContext h.
Proof.
  induction devices as [|device devices IH]; intros h; [reflexivity|].
  rewrite arrivals_cons, IH. unfold registerLibUsbDevice.
  repeat case_match; reflexivity.
Qed.

(** Arrivals of identities that are all in the registry change nothing. *)
Lemma arrivals_known devices : ∀ h,
  (∀ device id, device ∈ devices → createUsbDeviceId device = Some id →
                is_Some (mDevices h !! id_key id)) →
  arrivals devices h = h.
Proof.
  induction devices as [|device devices IH]; intros h Hknown; [reflexivity|].
  rewrite arrivals_cons.
  assert ((registerLibUsbDevice device h).2 = h) as ->.
  { destruct (createUsbDeviceId device) as [id|] eqn:Hid.
    - rewrite (registerLibUsbDevice_present device id h Hid); [reflexivity|].
      apply (Hknown device id); [left | exact Hid].
    - unfold registerLibUsbDevice. rewrite Hid. reflexivity. }
  apply IH. intros d id Hin. apply Hknown. right. exact Hin.
Qed.

Lemma arrivals_idempotent devices h :
  arrivals devices (arrivals devices h) = arrivals devices h.
Proof.
  apply arrivals_known. intros device id Hin Hid.
  apply (elem_of_dom (D := gset N)). rewrite arrivals_dom.
  apply elem_of_union_r, elem_of_list_to_set, list_elem_of_fmap.
  exists id. split; [reflexivity|].
  apply list_elem_of_omap. exists device. done.
Qed.

(** X13.  [discoverDevices] and [discoverDevicesIds] over the same
    device list, on a host with an empty registry.  The identities in
    the registry after [discoverDevices] are those that
    [discoverDevicesIds] returns.  When the context is null, or
    [libusb_get_device_list] returns an error or no device,
    [discoverDevices] leaves the host as it is and
    [discoverDevicesIds] returns the empty vector.  Otherwise
    [discoverDevicesIds] returns the identity of every listed device
    whose descriptor can be read, in list order and with repetitions,
    and after [discoverDevices] the registry holds for each identity
    the device made from the first listed device of that identity. *)
Theorem discoverDevices_registers_listed_ids (l : DeviceList) h :
  mDevices h = ∅ →
  dom (mDevices (discoverDevices l h))
  = list_to_set (id_key <$> discoverDevicesIds l h)
  ∧ (mLibUsbContext h = nullptr ∨ device_number l ≤ 0 →
     discoverDevices l h = h ∧ discoverDevicesIds l h = [])
  ∧ (mLibUsbContext h ≠ nullptr → 0 < device_number l →
     discoverDevicesIds l h
     = omap createUsbDeviceId
            (take (Z.to_nat (device_number l)) (device_list l))
     ∧ ∀ vendor_id product_id,
         getDevice vendor_id product_id (discoverDevices l h)
         = (λ device,
              UsbDevice_new (dev_ptr device)
                            (UsbDeviceId_new vendor_id product_id))
             <$> first_arrival (UsbDeviceId_new vendor_id product_id)
                   (take (Z.to_nat (device_number l)) (device_list l))).
Proof.
  intros Hempty. unfold discoverDevices, discoverDevicesIds, is_null, listed.
  destruct (N.eqb_spec (mLibUsbContext h) nullptr) as [Hnull|Hctx]; cbn.
  { rewrite Hempty, dom_empty_L. repeat split; try done. }
  destruct (Z.gtb_spec (device_number l) 0) as [Hpos|Hneg].
  - split; [rewrite arrivals_dom, Hempty, dom_empty_L; set_solver|].
    split; [intros [?|?]; [contradiction | lia]|].
    intros _ _. split; [reflexivity|].
    intros v p. unfold getDevice.
    rewrite arrivals_lookup by apply UsbDeviceId_new_in_range.
    rewrite Hempty, lookup_empty.
    destruct (first_arrival _ _); reflexivity.
  - rewrite Hempty, dom_empty_L.
    split; [done|]. split; [done|]. intros _ Hpos. lia.
Qed.

(** X14.  Running [discoverDevices] a second time over the same device
    list changes nothing: no device is replaced and no callback is
    queued again. *)
Theorem discoverDevices_twice (l : DeviceList) h :
  discoverDevices l (discoverDevices l h) = discoverDevices l h.
Proof.
  unfold discoverDevices.
  destruct (negb (is_null (mLibUsbContext h))) eqn:Hctx;
    [|rewrite Hctx; reflexivity].
  destruct (device_number l >? 0) eqn:Hn; [|rewrite Hctx; reflexivity].
  rewrite arrivals_context, Hctx. apply arrivals_idempotent.
Qed.

End Discovery.

(** The arrival at address 10 is what [getDevice 0x1234 0x5678] finds
    after the events of [sample_arrivals]. *)
Lemma getDevice_returns_an_arrival_witness :
  mId (UsbDevice_new 10%N (UsbDeviceId_new 0x1234 0x5678))
  = UsbDeviceId_new 0x1234 0x5678
  ∧ ∃ device,
      (device, LIBUSB_HOTPLUG_EVENT_DEVICE_ARRIVED)
        ∈ (λ d, (d, LIBUSB_HOTPLUG_EVENT_DEVICE_ARRIVED)) <$> sample_arrivals
      ∧ createUsbDeviceId device = Some (UsbDeviceId_new 0x1234 0x5678)
      ∧ UsbDevice_new 10%N (UsbDeviceId_new 0x1234 0x5678)
        = UsbDevice_new (dev_ptr device) (UsbDeviceId_new 0x1234 0x5678).
Proof.
  apply (getDevice_returns_an_arrival 0x1234 0x5678
           ((λ d, (d, LIBUSB_HOTPLUG_EVENT_DEVICE_ARRIVED)) <$> sample_arrivals)
           sample_host); reflexivity.
Defined.

(** [sample_host] over the four devices of [sample_arrivals]: two
    identities are registered, and (0x1234, 0x5678) is the device at
    address 10.  When [libusb_get_device_list] returns
    LIBUSB_ERROR_NO_DEVICE nothing is registered. *)
Lemma discoverDevices_registers_listed_ids_witness :
  (dom (mDevices (discoverDevices (mkDeviceList 4 sample_arrivals)
                                  sample_host))
   = list_to_set
       (id_key
          <$> discoverDevicesIds (mkDeviceList 4 sample_arrivals) sample_host)
   ∧ getDevice 0x1234 0x5678
       (discoverDevices (mkDeviceList 4 sample_arrivals) sample_host)
     = Some (UsbDevice_new 10%N (UsbDeviceId_new 0x1234 0x5678)))
  ∧ discoverDevices (mkDeviceList LIBUSB_ERROR_NO_DEVICE sample_arrivals)
                    sample_host = sample_host
  ∧ discoverDevicesIds (mkDeviceList LIBUSB_ERROR_NO_DEVICE sample_arrivals)
                       sample_host = [].
Proof.
  split.
  - destruct (discoverDevices_registers_listed_ids
                (mkDeviceList 4 sample_arrivals) sample_host eq_refl)
      as (Hdom & _ & Hlisted).
    split; [exact Hdom|].
    exact (proj2 (Hlisted ltac:(discriminate) eq_refl) 0x1234%N 0x5678%N).
  - destruct (discoverDevices_registers_listed_ids
                (mkDeviceList LIBUSB_ERROR_NO_DEVICE sample_arrivals)
                sample_host eq_refl)
      as (_ & Hnone & _).
    apply Hnone. right. discriminate.
Defined.

(** ** Teardown *)

(** The device [close()] leaves does not depend on what the bus has
    been asked or answers. *)
Lemma close_device_any_log driver d log log' :
  (close driver d log).1 = (close driver d log').1.
Proof.
  unfold close, mbind, mret, Bus_bind, Bus_ret, bind, ret, call.
  destruct (negb (is_null (mLibUsbDeviceHandle d))); [|reflexivity].
  destruct (mInterfaceNumber d >=? 0); reflexivity.
Qed.

Lemma close_each_cons driver key id device rest devices log :
  close_each driver ((key, (id, device)) :: rest) devices log
  = close_each driver rest
      (<[key := (id, (close driver device log).1)]> devices)
      (close driver device log).2.
Proof.
  cbn [close_each]. unfold mbind, Bus_bind, bind.
  destruct (close driver device log). reflexivity.
Qed.

Lemma close_each_lookup driver entries : ∀ devices log key,
  NoDup entries.*1 →
  (∀ k entry, (k, entry) ∈ entries → devices !! k = Some entry) →
  (close_each driver entries devices log).1 !! key
  = if decide (key ∈ entries.*1)
    then (λ entry, (entry.1, (close driver entry.2 []).1)) <$> devices !! key
    else devices !! key.
Proof.
  induction entries as [|[k0 [id d]] rest IH]; intros devices log key Hnd Hin.
  - cbn. rewrite decide_False by apply not_elem_of_nil. reflexivity.
  - rewrite close_each_cons. cbn [fmap list_fmap fst] in *.
    apply NoDup_cons in Hnd as [Hk0 Hnd].
    rewrite IH; [|exact Hnd|].
    2:{ intros k entry Hk. rewrite lookup_insert_ne.
        - apply Hin. right. exact Hk.
        - intros <-. apply Hk0, list_elem_of_fmap. exists (k0, entry). done. }
    destruct (decide (key = k0)) as [->|Hne].
    + rewrite decide_False by exact Hk0.
      rewrite decide_True by left.
      rewrite lookup_insert_eq, (Hin k0 (id, d)) by left. cbn.
      rewrite (close_device_any_log driver d log []). reflexivity.
    + rewrite lookup_insert_ne by congruence.
      destruct (decide (key ∈ rest.*1)) as [Hr|Hr].
      * rewrite decide_True by (right; exact Hr). reflexivity.
      * rewrite decide_False; [reflexivity|].
        intros [?|?]%elem_of_cons; contradiction.
Qed.

(** X15.  [closeDevices] closes every device of the registry where it
    is: the registry keeps its identities, and each holds its device
    as [close()] leaves it, whatever the bus answers. *)
Theorem closeDevices_closes_every_device driver
    (devices : gmap N (UsbDeviceId * UsbDevice)) log :
  (closeDevices driver devices log).1
  = (λ entry, (entry.1, (close driver entry.2 []).1)) <$> devices.
Proof.
  apply map_eq. intros key. unfold closeDevices.
  assert (∀ k entry, (k, entry) ∈ entries_in_key_order devices
                     ↔ devices !! k = Some entry) as Hin.
  { intros k entry. unfold entries_in_key_order.
    rewrite merge_sort_Permutation. apply elem_of_map_to_list. }
  rewrite close_each_lookup.
  - rewrite lookup_fmap. case_decide as Hkey; [reflexivity|].
    destruct (devices !! key) as [entry|] eqn:Hentry; [|reflexivity].
    exfalso. apply Hkey, list_elem_of_fmap. exists (key, entry).
    split; [reflexivity|]. apply Hin, Hentry.
  - unfold entries_in_key_order. rewrite merge_sort_Permutation.
    apply NoDup_fst_map_to_list.
  - intros k entry. apply Hin.
Qed.

(** The order in which [closeDevices] visits the registry is by
    rising key. *)
Lemma entries_in_key_order_sorted
    (devices : gmap N (UsbDeviceId * UsbDevice)) :
  StronglySorted key_le (entries_in_key_order devices)
  ∧ entries_in_key_order devices ≡ₚ map_to_list devices.
Proof.
  split; [|apply merge_sort_Permutation].
  apply StronglySorted_merge_sort.
  - intros a b c. unfold key_le. lia.
  - intros a b. unfold key_le. lia.
Qed.

End HostTheory.
